(** * GUST86 analytic theory of the Uranian satellites: a shallow embedding

    This development models [trunk/src/main/astro/Gust86.cpp]: the angle
    propagation and the per-satellite trigonometric series of
    [CalcGust86Elem], the Newton solution of Kepler's equation and the
    reconstruction of position and velocity in [EllipticToRectangular],
    and the facade [Gust86Orbit::state] / [Gust86Orbit::Create].

    The C++ code computes with [double].  The code is translated once, over
    an interface [DoubleArith] of the operations it uses, so that the
    structural properties hold for every interpretation of those operations
    (IEEE binary64 with any libm included).  Properties that are statements
    of real analysis (sign of the Newton denominator, size of the
    eccentricity and inclination vectors, orthonormality of the rotation
    table) are proved for the interpretation [Ideal.RealArith] of the
    operations by exact real arithmetic.  Where rounding decides what the
    code does, the code is run in the interpretation [Binary64.arith]: IEEE
    binary64 with round to nearest even, the functions of the mathematical
    library being parameters.

    Lexical conventions of the transcription: a C literal [3.] is written
    [#3], [.0254] is written [#0.0254], a negated literal [-2.] after an
    operator is the literal [#(-2)], and [a[i]] is written [a.[i]]. *)

From Stdlib Require Import QArith List Lia.
From Stdlib Require Reals Lra Qreals.
From Stdlib Require PrimFloat SpecFloat FloatOps.
From stdpp Require Import base list.

(** ** The arithmetic of [double] *)

Module Dbl.

(** The operations on [double] that the translation unit uses: decimal
    literals, the four arithmetic operators, unary minus, the comparison
    [<=], and the [<cmath>] functions [sin], [cos], [sqrt], [fabs], [fmod]
    and [pow]. *)
Class DoubleArith : Type := {
  double : Type;
  lit : Q -> double;
  dadd : double -> double -> double;
  dsub : double -> double -> double;
  dmul : double -> double -> double;
  ddiv : double -> double -> double;
  dneg : double -> double;
  dle : double -> double -> bool;
  sin : double -> double;
  cos : double -> double;
  sqrt : double -> double;
  fabs : double -> double;
  fmod : double -> double -> double;
  pow : double -> double -> double
}.

Declare Scope double_scope.
Delimit Scope double_scope with D.
Bind Scope double_scope with double.

Notation "x + y" := (dadd x y) : double_scope.
Notation "x - y" := (dsub x y) : double_scope.
Notation "x * y" := (dmul x y) : double_scope.
Notation "x / y" := (ddiv x y) : double_scope.
Notation "- x" := (dneg x) : double_scope.
Notation "x <=? y" := (dle x y) : double_scope.
Notation "# q" := (lit q%Q)
  (at level 1, q constr at level 1, format "# q") : double_scope.

#[global] Instance double_inhabited `{DoubleArith} : Inhabited double :=
  populate (lit 0).

(** [a.[i]] reads the array [a] at an index that the code keeps inside the
    declared size of [a]: a constant, or the counter of a loop over the
    whole array. *)
Notation "a .[ i ]" := (lookup_total i%nat a)
  (at level 1, left associativity, format "a .[ i ]") : double_scope.

(** Constants and unit conversions that [Gust86.cpp] takes from headers
    which are not part of the translation unit ([Constants.h],
    [vesta/Units.h]): they are parameters of the model. *)
Class Headers `{DoubleArith} : Type := {
  PI : double;
  J2000 : double;
  AU : double;
  secondsToDays : double -> double;
  daysToSeconds : double -> double
}.

End Dbl.

(** ** Outcomes of a call *)

(** A call either returns a value, or is still inside the Newton loop when
    the fuel of the model runs out ([Spinning]: the C++ loop has no exit
    other than its convergence test), or indexes a constant table outside
    its bounds ([OutOfBounds]: undefined behaviour in C++). *)
Inductive outcome (A : Type) : Type :=
| Returns (a : A)
| Spinning
| OutOfBounds.

Arguments Returns {A} a.
Arguments Spinning {A}.
Arguments OutOfBounds {A}.

#[global] Instance outcome_ret : MRet outcome := @Returns.

#[global] Instance outcome_bind : MBind outcome :=
  fun A B (k : A -> outcome B) (m : outcome A) =>
    match m with
    | Returns a => k a
    | Spinning => Spinning
    | OutOfBounds => OutOfBounds
    end.

(** [table[i]] for an index computed from an argument of the call. *)
Definition index {A : Type} (table : list A) (i : nat) : outcome A :=
  match table !! i with
  | Some v => Returns v
  | None => OutOfBounds
  end.

(** ** The translation unit *)

Module Gust86.
Import Dbl.

(** Modelled from the spec: the enumeration [Gust86Orbit::Satellite] is
    declared in [Gust86.h], which is missing; the spec gives a closed
    enumeration of five bodies that indexes all constant tables, Miranda
    being satellite index 0. *)
Inductive Satellite : Type := Miranda | Ariel | Umbriel | Titania | Oberon.

(** The cast [(int) satellite]. *)
Definition satIndex (s : Satellite) : nat :=
  match s with
  | Miranda => 0
  | Ariel => 1
  | Umbriel => 2
  | Titania => 3
  | Oberon => 4
  end.

Definition all_satellites : list Satellite :=
  [Miranda; Ariel; Umbriel; Titania; Oberon].

Section Code.
Context {DA : DoubleArith}.
Local Open Scope double_scope.

Definition M_PI : double := #3.14159265358979323846.

Definition fqn : list double :=
  [#4.44519055; #2.492952519; #1.516148111; #0.721718509; #0.46669212].

Definition fqe : list double :=
  [#20.082 * M_PI / (#180 * #365.25);
   #6.217 * M_PI / (#180 * #365.25);
   #2.865 * M_PI / (#180 * #365.25);
   #2.078 * M_PI / (#180 * #365.25);
   #0.386 * M_PI / (#180 * #365.25)].

Definition fqi : list double :=
  [#(-20.309) * M_PI / (#180 * #365.25);
   #(-6.288) * M_PI / (#180 * #365.25);
   #(-2.836) * M_PI / (#180 * #365.25);
   #(-1.843) * M_PI / (#180 * #365.25);
   #(-0.259) * M_PI / (#180 * #365.25)].

Definition phn : list double :=
  [#(-0.238051); #3.098046; #2.285402; #0.856359; #(-0.915592)].

Definition phe : list double :=
  [#0.611392; #2.408974; #2.067774; #0.735131; #0.426767].

Definition phi : list double :=
  [#5.702313; #0.395757; #0.589326; #1.746237; #4.206896].

(** The three local arrays [an], [ae], [ai] of [CalcGust86Elem]. *)
Record Angles : Type := mkAngles {
  an : list double;
  ae : list double;
  ai : list double
}.

(** One turn of the loop [for (int i = 0; i < 5; i++)]. *)
Definition angle_step (t : double) (a : Angles) (i : nat) : Angles :=
  {| an := <[i := fmod (fqn.[i] * t + phn.[i]) (#2 * M_PI)]> (an a);
     ae := <[i := fmod (fqe.[i] * t + phe.[i]) (#2 * M_PI)]> (ae a);
     ai := <[i := fmod (fqi.[i] * t + phi.[i]) (#2 * M_PI)]> (ai a) |}.

(** The whole loop, started on the indeterminate contents [a] of the three
    arrays. *)
Definition angle_loop (t : double) (a : Angles) : Angles :=
  foldl (angle_step t) a (seq 0 5).

(** The [case Gust86Orbit::Miranda:] branch of the [switch]. *)
Definition CalcGust86Elem_Miranda (t : double) (a : Angles) (elements : list double)
  : list double :=
  let an := an a in let ae := ae a in let ai := ai a in
  let elements := <[0 :=
        #4.44352267
        - cos (an.[0] - an.[1] * #3 + an.[2] * #2) * #3.492e-5
        + cos (an.[0] * #2 - an.[1] * #6 + an.[2] * #4) * #8.47e-6
        + cos (an.[0] * #3 - an.[1] * #9 + an.[2] * #6) * #1.31e-6
        - cos (an.[0] - an.[1]) * #5.228e-5
        - cos (an.[0] * #2 - an.[1] * #2) * #1.3665e-4]> elements in
  let elements := <[1 :=
        sin (an.[0] - an.[1] * #3 + an.[2] * #2) * #0.02547217
        - sin (an.[0] * #2 - an.[1] * #6 + an.[2] * #4) * #0.00308831
        - sin (an.[0] * #3 - an.[1] * #9 + an.[2] * #6) * #3.181e-4
        - sin (an.[0] * #4 - an.[1] * #12 + an.[2] * #8) * #3.749e-5
        - sin (an.[0] - an.[1]) * #5.785e-5
        - sin (an.[0] * #2 - an.[1] * #2) * #6.232e-5
        - sin (an.[0] * #3 - an.[1] * #3) * #2.795e-5
        + t * #4.44519055 - #0.23805158]> elements in
  let elements := <[2 :=
        cos (ae.[0]) * #0.00131238
        + cos (ae.[1]) * #7.181e-5
        + cos (ae.[2]) * #6.977e-5
        + cos (ae.[3]) * #6.75e-6
        + cos (ae.[4]) * #6.27e-6
        + cos (an.[0]) * #1.941e-4
        - cos (-an.[0] + an.[1] * #2) * #1.2331e-4
        + cos (an.[0] * #(-2) + an.[1] * #3) * #3.952e-5]> elements in
  let elements := <[3 :=
        sin (ae.[0]) * #0.00131238
        + sin (ae.[1]) * #7.181e-5
        + sin (ae.[2]) * #6.977e-5
        + sin (ae.[3]) * #6.75e-6
        + sin (ae.[4]) * #6.27e-6
        + sin (an.[0]) * #1.941e-4
        - sin (-an.[0] + an.[1] * #2) * #1.2331e-4
        + sin (an.[0] * #(-2) + an.[1] * #3) * #3.952e-5]> elements in
  let elements := <[4 :=
        cos (ai.[0]) * #0.03787171
        + cos (ai.[1]) * #2.701e-5
        + cos (ai.[2]) * #3.076e-5
        + cos (ai.[3]) * #1.218e-5
        + cos (ai.[4]) * #5.37e-6]> elements in
  let elements := <[5 :=
        sin (ai.[0]) * #0.03787171
        + sin (ai.[1]) * #2.701e-5
        + sin (ai.[2]) * #3.076e-5
        + sin (ai.[3]) * #1.218e-5
        + sin (ai.[4]) * #5.37e-6]> elements in
  elements.

(** The [case Gust86Orbit::Ariel:] branch of the [switch]. *)
Definition CalcGust86Elem_Ariel (t : double) (a : Angles) (elements : list double)
  : list double :=
  let an := an a in let ae := ae a in let ai := ai a in
  let elements := <[0 :=
        #2.49254257
        + cos (an.[0] - an.[1] * #3 + an.[2] * #2) * #2.55e-6
        - cos (an.[1] - an.[2]) * #4.216e-5
        - cos (an.[1] * #2 - an.[2] * #2) * #1.0256e-4]> elements in
  let elements := <[1 :=
        - sin (an.[0] - an.[1] * #3 + an.[2] * #2) * #0.0018605
        + sin (an.[0] * #2 - an.[1] * #6 + an.[2] * #4) * #2.1999e-4
        + sin (an.[0] * #3 - an.[1] * #9 + an.[2] * #6) * #2.31e-5
        + sin (an.[0] * #4 - an.[1] * #12 + an.[2] * #8) * #4.3e-6
        - sin (an.[1] - an.[2]) * #9.011e-5
        - sin (an.[1] * #2 - an.[2] * #2) * #9.107e-5
        - sin (an.[1] * #3 - an.[2] * #3) * #4.275e-5
        - sin (an.[1] * #2 - an.[3] * #2) * #1.649e-5
        + t * #2.49295252 + #3.09804641]> elements in
  let elements := <[2 :=
        cos (ae.[0]) * #(-3.35e-6)
        + cos (ae.[1]) * #0.00118763
        + cos (ae.[2]) * #8.6159e-4
        + cos (ae.[3]) * #7.15e-5
        + cos (ae.[4]) * #5.559e-5
        - cos (-an.[1] + an.[2] * #2) * #8.46e-5
        + cos (an.[1] * #(-2) + an.[2] * #3) * #9.181e-5
        + cos (-an.[1] + an.[3] * #2) * #2.003e-5
        + cos (an.[1]) * #8.977e-5]> elements in
  let elements := <[3 :=
        sin (ae.[0]) * #(-3.35e-6)
        + sin (ae.[1]) * #0.00118763
        + sin (ae.[2]) * #8.6159e-4
        + sin (ae.[3]) * #7.15e-5
        + sin (ae.[4]) * #5.559e-5
        - sin (-an.[1] + an.[2] * #2) * #8.46e-5
        + sin (an.[1] * #(-2) + an.[2] * #3) * #9.181e-5
        + sin (-an.[1] + an.[3] * #2) * #2.003e-5
        + sin (an.[1]) * #8.977e-5]> elements in
  let elements := <[4 :=
        cos (ai.[0]) * #(-1.2175e-4)
        + cos (ai.[1]) * #3.5825e-4
        + cos (ai.[2]) * #2.9008e-4
        + cos (ai.[3]) * #9.778e-5
        + cos (ai.[4]) * #3.397e-5]> elements in
  let elements := <[5 :=
        sin (ai.[0]) * #(-1.2175e-4)
        + sin (ai.[1]) * #3.5825e-4
        + sin (ai.[2]) * #2.9008e-4
        + sin (ai.[3]) * #9.778e-5
        + sin (ai.[4]) * #3.397e-5]> elements in
  elements.

(** The [case Gust86Orbit::Umbriel:] branch of the [switch]. *)
Definition CalcGust86Elem_Umbriel (t : double) (a : Angles) (elements : list double)
  : list double :=
  let an := an a in let ae := ae a in let ai := ai a in
  let elements := <[0 :=
        #1.5159549
        + cos (an.[2] - an.[3] * #2 + ae.[2]) * #9.74e-6
        - cos (an.[1] - an.[2]) * #1.06e-4
        + cos (an.[1] * #2 - an.[2] * #2) * #5.416e-5
        - cos (an.[2] - an.[3]) * #2.359e-5
        - cos (an.[2] * #2 - an.[3] * #2) * #7.07e-5
        - cos (an.[2] * #3 - an.[3] * #3) * #3.628e-5]> elements in
  let elements := <[1 :=
        sin (an.[0] - an.[1] * #3 + an.[2] * #2) * #6.6057e-4
        - sin (an.[0] * #2 - an.[1] * #6 + an.[2] * #4) * #7.651e-5
        - sin (an.[0] * #3 - an.[1] * #9 + an.[2] * #6) * #8.96e-6
        - sin (an.[0] * #4 - an.[1] * #12 + an.[2] * #8) * #2.53e-6
        - sin (an.[2] - an.[3] * #4 + an.[4] * #3) * #5.291e-5
        - sin (an.[2] - an.[3] * #2 + ae.[4]) * #7.34e-6
        - sin (an.[2] - an.[3] * #2 + ae.[3]) * #1.83e-6
        + sin (an.[2] - an.[3] * #2 + ae.[2]) * #1.4791e-4
        + sin (an.[2] - an.[3] * #2 + ae.[1]) * #(-7.77e-6)
        + sin (an.[1] - an.[2]) * #9.776e-5
        + sin (an.[1] * #2 - an.[2] * #2) * #7.313e-5
        + sin (an.[1] * #3 - an.[2] * #3) * #3.471e-5
        + sin (an.[1] * #4 - an.[2] * #4) * #1.889e-5
        - sin (an.[2] - an.[3]) * #6.789e-5
        - sin (an.[2] * #2 - an.[3] * #2) * #8.286e-5
        + sin (an.[2] * #3 - an.[3] * #3) * #(-3.381e-5)
        - sin (an.[2] * #4 - an.[3] * #4) * #1.579e-5
        - sin (an.[2] - an.[4]) * #1.021e-5
        - sin (an.[2] * #2 - an.[4] * #2) * #1.708e-5
        + t * #1.51614811 + #2.28540169]> elements in
  let elements := <[2 :=
        cos (ae.[0]) * #(-2.1e-7)
        - cos (ae.[1]) * #2.2795e-4
        + cos (ae.[2]) * #0.00390469
        + cos (ae.[3]) * #3.0917e-4
        + cos (ae.[4]) * #2.2192e-4
        + cos (an.[1]) * #2.934e-5
        + cos (an.[2]) * #2.62e-5
        + cos (-an.[1] + an.[2] * #2) * #5.119e-5
        - cos (an.[1] * #(-2) + an.[2] * #3) * #1.0386e-4
        - cos (an.[1] * #(-3) + an.[2] * #4) * #2.716e-5
        + cos (an.[3]) * #(-1.622e-5)
        + cos (-an.[2] + an.[3] * #2) * #5.4923e-4
        + cos (an.[2] * #(-2) + an.[3] * #3) * #3.47e-5
        + cos (an.[2] * #(-3) + an.[3] * #4) * #1.281e-5
        + cos (-an.[2] + an.[4] * #2) * #2.181e-5
        + cos (an.[2]) * #4.625e-5]> elements in
  let elements := <[3 :=
        sin (ae.[0]) * #(-2.1e-7)
        - sin (ae.[1]) * #2.2795e-4
        + sin (ae.[2]) * #0.00390469
        + sin (ae.[3]) * #3.0917e-4
        + sin (ae.[4]) * #2.2192e-4
        + sin (an.[1]) * #2.934e-5
        + sin (an.[2]) * #2.62e-5
        + sin (-an.[1] + an.[2] * #2) * #5.119e-5
        - sin (an.[1] * #(-2) + an.[2] * #3) * #1.0386e-4
        - sin (an.[1] * #(-3) + an.[2] * #4) * #2.716e-5
        + sin (an.[3]) * #(-1.622e-5)
        + sin (-an.[2] + an.[3] * #2) * #5.4923e-4
        + sin (an.[2] * #(-2) + an.[3] * #3) * #3.47e-5
        + sin (an.[2] * #(-3) + an.[3] * #4) * #1.281e-5
        + sin (-an.[2] + an.[4] * #2) * #2.181e-5
        + sin (an.[2]) * #4.625e-5]> elements in
  let elements := <[4 :=
        cos (ai.[0]) * #(-1.086e-5)
        - cos (ai.[1]) * #8.151e-5
        + cos (ai.[2]) * #0.00111336
        + cos (ai.[3]) * #3.5014e-4
        + cos (ai.[4]) * #1.065e-4]> elements in
  let elements := <[5 :=
        sin (ai.[0]) * #(-1.086e-5)
        - sin (ai.[1]) * #8.151e-5
        + sin (ai.[2]) * #0.00111336
        + sin (ai.[3]) * #3.5014e-4
        + sin (ai.[4]) * #1.065e-4]> elements in
  elements.

(** The [case Gust86Orbit::Titania:] branch of the [switch]. *)
Definition CalcGust86Elem_Titania (t : double) (a : Angles) (elements : list double)
  : list double :=
  let an := an a in let ae := ae a in let ai := ai a in
  let elements := <[0 :=
        #0.72166316
        - cos (an.[2] - an.[3] * #2 + ae.[2]) * #2.64e-6
        - cos (an.[3] * #2 - an.[4] * #3 + ae.[4]) * #2.16e-6
        + cos (an.[3] * #2 - an.[4] * #3 + ae.[3]) * #6.45e-6
        - cos (an.[3] * #2 - an.[4] * #3 + ae.[2]) * #1.11e-6
        + cos (an.[1] - an.[3]) * #(-6.223e-5)
        - cos (an.[2] - an.[3]) * #5.613e-5
        - cos (an.[3] - an.[4]) * #3.994e-5
        - cos (an.[3] * #2 - an.[4] * #2) * #9.185e-5
        - cos (an.[3] * #3 - an.[4] * #3) * #5.831e-5
        - cos (an.[3] * #4 - an.[4] * #4) * #3.86e-5
        - cos (an.[3] * #5 - an.[4] * #5) * #2.618e-5
        - cos (an.[3] * #6 - an.[4] * #6) * #1.806e-5]> elements in
  let elements := <[1 :=
        sin (an.[2] - an.[3] * #4 + an.[4] * #3) * #2.061e-5
        - sin (an.[2] - an.[3] * #2 + ae.[4]) * #2.07e-6
        - sin (an.[2] - an.[3] * #2 + ae.[3]) * #2.88e-6
        - sin (an.[2] - an.[3] * #2 + ae.[2]) * #4.079e-5
        + sin (an.[2] - an.[3] * #2 + ae.[1]) * #2.11e-6
        - sin (an.[3] * #2 - an.[4] * #3 + ae.[4]) * #5.183e-5
        + sin (an.[3] * #2 - an.[4] * #3 + ae.[3]) * #1.5987e-4
        + sin (an.[3] * #2 - an.[4] * #3 + ae.[2]) * #(-3.505e-5)
        - sin (an.[3] * #3 - an.[4] * #4 + ae.[4]) * #1.56e-6
        + sin (an.[1] - an.[3]) * #4.054e-5
        + sin (an.[2] - an.[3]) * #4.617e-5
        - sin (an.[3] - an.[4]) * #3.1776e-4
        - sin (an.[3] * #2 - an.[4] * #2) * #3.0559e-4
        - sin (an.[3] * #3 - an.[4] * #3) * #1.4836e-4
        - sin (an.[3] * #4 - an.[4] * #4) * #8.292e-5
        + sin (an.[3] * #5 - an.[4] * #5) * #(-4.998e-5)
        - sin (an.[3] * #6 - an.[4] * #6) * #3.156e-5
        - sin (an.[3] * #7 - an.[4] * #7) * #2.056e-5
        - sin (an.[3] * #8 - an.[4] * #8) * #1.369e-5
        + t * #0.72171851 + #0.85635879]> elements in
  let elements := <[2 :=
        cos (ae.[0]) * #(-2e-8)
        - cos (ae.[1]) * #1.29e-6
        - cos (ae.[2]) * #3.2451e-4
        + cos (ae.[3]) * #9.3281e-4
        + cos (ae.[4]) * #0.00112089
        + cos (an.[1]) * #3.386e-5
        + cos (an.[3]) * #1.746e-5
        + cos (-an.[1] + an.[3] * #2) * #1.658e-5
        + cos (an.[2]) * #2.889e-5
        - cos (-an.[2] + an.[3] * #2) * #3.586e-5
        + cos (an.[3]) * #(-1.786e-5)
        - cos (an.[4]) * #3.21e-5
        - cos (-an.[3] + an.[4] * #2) * #1.7783e-4
        + cos (an.[3] * #(-2) + an.[4] * #3) * #7.9343e-4
        + cos (an.[3] * #(-3) + an.[4] * #4) * #9.948e-5
        + cos (an.[3] * #(-4) + an.[4] * #5) * #4.483e-5
        + cos (an.[3] * #(-5) + an.[4] * #6) * #2.513e-5
        + cos (an.[3] * #(-6) + an.[4] * #7) * #1.543e-5]> elements in
  let elements := <[3 :=
        sin (ae.[0]) * #(-2e-8)
        - sin (ae.[1]) * #1.29e-6
        - sin (ae.[2]) * #3.2451e-4
        + sin (ae.[3]) * #9.3281e-4
        + sin (ae.[4]) * #0.00112089
        + sin (an.[1]) * #3.386e-5
        + sin (an.[3]) * #1.746e-5
        + sin (-an.[1] + an.[3] * #2) * #1.658e-5
        + sin (an.[2]) * #2.889e-5
        - sin (-an.[2] + an.[3] * #2) * #3.586e-5
        + sin (an.[3]) * #(-1.786e-5)
        - sin (an.[4]) * #3.21e-5
        - sin (-an.[3] + an.[4] * #2) * #1.7783e-4
        + sin (an.[3] * #(-2) + an.[4] * #3) * #7.9343e-4
        + sin (an.[3] * #(-3) + an.[4] * #4) * #9.948e-5
        + sin (an.[3] * #(-4) + an.[4] * #5) * #4.483e-5
        + sin (an.[3] * #(-5) + an.[4] * #6) * #2.513e-5
        + sin (an.[3] * #(-6) + an.[4] * #7) * #1.543e-5]> elements in
  let elements := <[4 :=
        cos (ai.[0]) * #(-1.43e-6)
        - cos (ai.[1]) * #1.06e-6
        - cos (ai.[2]) * #1.4013e-4
        + cos (ai.[3]) * #6.8572e-4
        + cos (ai.[4]) * #3.7832e-4]> elements in
  let elements := <[5 :=
        sin (ai.[0]) * #(-1.43e-6)
        - sin (ai.[1]) * #1.06e-6
        - sin (ai.[2]) * #1.4013e-4
        + sin (ai.[3]) * #6.8572e-4
        + sin (ai.[4]) * #3.7832e-4]> elements in
  elements.

(** The [case Gust86Orbit::Oberon:] branch of the [switch]. *)
Definition CalcGust86Elem_Oberon (t : double) (a : Angles) (elements : list double)
  : list double :=
  let an := an a in let ae := ae a in let ai := ai a in
  let elements := <[0 :=
        #0.46658054
        + cos (an.[3] * #2 - an.[4] * #3 + ae.[4]) * #2.08e-6
        - cos (an.[3] * #2 - an.[4] * #3 + ae.[3]) * #6.22e-6
        + cos (an.[3] * #2 - an.[4] * #3 + ae.[2]) * #1.07e-6
        - cos (an.[1] - an.[4]) * #4.31e-5
        + cos (an.[2] - an.[4]) * #(-3.894e-5)
        - cos (an.[3] - an.[4]) * #8.011e-5
        + cos (an.[3] * #2 - an.[4] * #2) * #5.906e-5
        + cos (an.[3] * #3 - an.[4] * #3) * #3.749e-5
        + cos (an.[3] * #4 - an.[4] * #4) * #2.482e-5
        + cos (an.[3] * #5 - an.[4] * #5) * #1.684e-5]> elements in
  let elements := <[1 :=
        - sin (an.[2] - an.[3] * #4 + an.[4] * #3) * #7.82e-6
        + sin (an.[3] * #2 - an.[4] * #3 + ae.[4]) * #5.129e-5
        - sin (an.[3] * #2 - an.[4] * #3 + ae.[3]) * #1.5824e-4
        + sin (an.[3] * #2 - an.[4] * #3 + ae.[2]) * #3.451e-5
        + sin (an.[1] - an.[4]) * #4.751e-5
        + sin (an.[2] - an.[4]) * #3.896e-5
        + sin (an.[3] - an.[4]) * #3.5973e-4
        + sin (an.[3] * #2 - an.[4] * #2) * #2.8278e-4
        + sin (an.[3] * #3 - an.[4] * #3) * #1.386e-4
        + sin (an.[3] * #4 - an.[4] * #4) * #7.803e-5
        + sin (an.[3] * #5 - an.[4] * #5) * #4.729e-5
        + sin (an.[3] * #6 - an.[4] * #6) * #3e-5
        + sin (an.[3] * #7 - an.[4] * #7) * #1.962e-5
        + sin (an.[3] * #8 - an.[4] * #8) * #1.311e-5
        + t * #0.46669212 - #0.9155918]> elements in
  let elements := <[2 :=
        cos (ae.[1]) * #(-3.5e-7)
        + cos (ae.[2]) * #7.453e-5
        - cos (ae.[3]) * #7.5868e-4
        + cos (ae.[4]) * #0.00139734
        + cos (an.[1]) * #3.9e-5
        + cos (-an.[1] + an.[4] * #2) * #1.766e-5
        + cos (an.[2]) * #3.242e-5
        + cos (an.[3]) * #7.975e-5
        + cos (an.[4]) * #7.566e-5
        + cos (-an.[3] + an.[4] * #2) * #1.3404e-4
        - cos (an.[3] * #(-2) + an.[4] * #3) * #9.8726e-4
        - cos (an.[3] * #(-3) + an.[4] * #4) * #1.2609e-4
        - cos (an.[3] * #(-4) + an.[4] * #5) * #5.742e-5
        - cos (an.[3] * #(-5) + an.[4] * #6) * #3.241e-5
        - cos (an.[3] * #(-6) + an.[4] * #7) * #1.999e-5
        - cos (an.[3] * #(-7) + an.[4] * #8) * #1.294e-5]> elements in
  let elements := <[3 :=
        sin (ae.[1]) * #(-3.5e-7)
        + sin (ae.[2]) * #7.453e-5
        - sin (ae.[3]) * #7.5868e-4
        + sin (ae.[4]) * #0.00139734
        + sin (an.[1]) * #3.9e-5
        + sin (-an.[1] + an.[4] * #2) * #1.766e-5
        + sin (an.[2]) * #3.242e-5
        + sin (an.[3]) * #7.975e-5
        + sin (an.[4]) * #7.566e-5
        + sin (-an.[3] + an.[4] * #2) * #1.3404e-4
        - sin (an.[3] * #(-2) + an.[4] * #3) * #9.8726e-4
        - sin (an.[3] * #(-3) + an.[4] * #4) * #1.2609e-4
        - sin (an.[3] * #(-4) + an.[4] * #5) * #5.742e-5
        - sin (an.[3] * #(-5) + an.[4] * #6) * #3.241e-5
        - sin (an.[3] * #(-6) + an.[4] * #7) * #1.999e-5
        - sin (an.[3] * #(-7) + an.[4] * #8) * #1.294e-5]> elements in
  let elements := <[4 :=
        cos (ai.[0]) * #(-4.4e-7)
        - cos (ai.[1]) * #3.1e-7
        + cos (ai.[2]) * #3.689e-5
        - cos (ai.[3]) * #5.9633e-4
        + cos (ai.[4]) * #4.5169e-4]> elements in
  let elements := <[5 :=
        sin (ai.[0]) * #(-4.4e-7)
        - sin (ai.[1]) * #3.1e-7
        + sin (ai.[2]) * #3.689e-5
        - sin (ai.[3]) * #5.9633e-4
        + sin (ai.[4]) * #4.5169e-4]> elements in
  elements.
(** [CalcGust86Elem(t, body, elements)]: [uninit] is the indeterminate
    initial contents of the local arrays, [elements] the contents of the
    caller's array on entry; the result is its contents on return. *)
Definition CalcGust86Elem (t : double) (body : Satellite) (uninit : Angles)
    (elements : list double) : list double :=
  let a := angle_loop t uninit in
  match body with
  | Miranda => CalcGust86Elem_Miranda t a elements
  | Ariel => CalcGust86Elem_Ariel t a elements
  | Umbriel => CalcGust86Elem_Umbriel t a elements
  | Titania => CalcGust86Elem_Titania t a elements
  | Oberon => CalcGust86Elem_Oberon t a elements
  end.

Definition gust86_rmu : list double :=
  [#1.291892353675174e-08;
   #1.291910570526396e-08;
   #1.291910102284198e-08;
   #1.291942656265575e-08;
   #1.291935967091320e-08].

Definition GUST86toJ2000 : list double :=
  [#9.753205572598290957e-01; #6.194437810676107434e-02; #2.119261772583629030e-01;
   #(-2.207428547845518695e-01); #2.529905336992995280e-01; #9.419492459363773150e-01;
   #4.733143558215848563e-03; #(-9.654836528287313313e-01); #2.604206471702025216e-01].

(** *** [EllipticToRectangular] *)

(** [const double L = fmod(elem[1]+n*dt,2.0*M_PI)]. *)
Definition kepler_L (n : double) (elem : list double) (dt : double) : double :=
  fmod (elem.[1] + n * dt) (#2.0 * M_PI).

(** The first value of [Le], before the loop. *)
Definition kepler_seed (L : double) (elem : list double) : double :=
  L - elem.[2] * sin L + elem.[3] * cos L.

(** The correction [dLe] that one turn of the loop computes from [Le]. *)
Definition kepler_dLe (L : double) (elem : list double) (Le : double) : double :=
  let cLe := cos Le in
  let sLe := sin Le in
  (L - Le + elem.[2] * sLe - elem.[3] * cLe)
  / (#1.0 - elem.[2] * cLe - elem.[3] * sLe).

(** The loop [for (;;) { ...; Le += dLe; if (fabs(dLe) <= 1e-14) break; }].
    The C++ loop has no bound; [fuel] bounds the number of turns the model
    follows, and [Spinning] says that the loop has not left by then. *)
Fixpoint kepler_loop (fuel : nat) (L : double) (elem : list double) (Le : double)
  : outcome double :=
  match fuel with
  | O => Spinning
  | S fuel =>
      let dLe := kepler_dLe L elem Le in
      let Le := Le + dLe in
      if fabs dLe <=? #1e-14 then Returns Le else kepler_loop fuel L elem Le
  end.

(** The straight-line code after the loop: it fills [xyz[0..5]] from the
    solved [Le]. *)
Definition rectangular (a n : double) (elem : list double) (Le : double)
    (xyz : list double) : list double :=
  let cLe := cos Le in
  let sLe := sin Le in
  let dlf := - elem.[2] * sLe + elem.[3] * cLe in
  let phi := sqrt (#1.0 - elem.[2] * elem.[2] - elem.[3] * elem.[3]) in
  let psi := #1.0 / (#1.0 + phi) in
  let x1 := a * (cLe - elem.[2] - psi * dlf * elem.[3]) in
  let y1 := a * (sLe - elem.[3] + psi * dlf * elem.[2]) in
  let elem_4q := elem.[4] * elem.[4] in
  let elem_5q := elem.[5] * elem.[5] in
  let dwho := #2.0 * sqrt (#1.0 - elem_4q - elem_5q) in
  let rtp := #1.0 - elem_5q - elem_5q in
  let rtq := #1.0 - elem_4q - elem_4q in
  let rdg := #2.0 * elem.[5] * elem.[4] in
  let xyz := <[0 := x1 * rtp + y1 * rdg]> xyz in
  let xyz := <[1 := x1 * rdg + y1 * rtq]> xyz in
  let xyz := <[2 := (- x1 * elem.[5] + y1 * elem.[4]) * dwho]> xyz in
  let rsam1 := - elem.[2] * cLe - elem.[3] * sLe in
  let h := a * n / (#1.0 + rsam1) in
  let vx1 := h * (- sLe - psi * rsam1 * elem.[3]) in
  let vy1 := h * (cLe + psi * rsam1 * elem.[2]) in
  let xyz := <[3 := vx1 * rtp + vy1 * rdg]> xyz in
  let xyz := <[4 := vx1 * rdg + vy1 * rtq]> xyz in
  let xyz := <[5 := (- vx1 * elem.[5] + vy1 * elem.[4]) * dwho]> xyz in
  xyz.

(** The first part of [EllipticToRectangular], up to the end of the loop:
    the solution [Le] of Kepler's equation. *)
Definition kepler (fuel : nat) (n : double) (elem : list double) (dt : double)
  : outcome double :=
  let L := kepler_L n elem dt in
  kepler_loop fuel L elem (kepler_seed L elem).

Definition EllipticToRectangular (fuel : nat) (a n : double) (elem : list double)
    (dt : double) (xyz : list double) : outcome (list double) :=
  Le ← kepler fuel n elem dt;
  mret (rectangular a n elem Le xyz).

Definition EllipticToRectangularN (fuel : nat) (mu : double) (elem : list double)
    (dt : double) (xyz : list double) : outcome (list double) :=
  let n := elem.[0] in
  let a := pow (mu / (n * n)) (#1.0 / #3.0) in
  EllipticToRectangular fuel a n elem dt xyz.

(** *** The facade [Gust86Orbit] *)

Context {HD : Headers}.

(** Eigen's fixed-size vectors and matrices, as far as [state] uses them:
    the constructor of [Matrix3d] from an array of doubles reads its nine
    coefficients in column-major order, a matrix is applied to a vector, a
    vector is scaled. *)
Record Vector3d : Type := mkVector3d { v_x : double; v_y : double; v_z : double }.

Definition Matrix3d (data : list double) (i j : nat) : double :=
  data.[i + 3 * j].

Definition transpose (m : nat -> nat -> double) (i j : nat) : double := m j i.

Definition mat_vec (m : nat -> nat -> double) (v : Vector3d) : Vector3d :=
  {| v_x := m 0 0 * v_x v + m 0 1 * v_y v + m 0 2 * v_z v;
     v_y := m 1 0 * v_x v + m 1 1 * v_y v + m 1 2 * v_z v;
     v_z := m 2 0 * v_x v + m 2 1 * v_y v + m 2 2 * v_z v |}.

Definition vec_scale (v : Vector3d) (c : double) : Vector3d :=
  {| v_x := v_x v * c; v_y := v_y v * c; v_z := v_z v * c |}.

Definition vec_div (v : Vector3d) (c : double) : Vector3d :=
  {| v_x := v_x v / c; v_y := v_y v / c; v_z := v_z v / c |}.

Record StateVector : Type := mkStateVector {
  position : Vector3d;
  velocity : Vector3d
}.

Record Gust86Orbit : Type := mkGust86Orbit {
  m_satellite : Satellite;
  m_boundingRadius : double;
  m_period : double
}.

Definition set_period (orbit : Gust86Orbit) (v : double) : Gust86Orbit :=
  {| m_satellite := m_satellite orbit;
     m_boundingRadius := m_boundingRadius orbit;
     m_period := v |}.

Definition set_boundingRadius (orbit : Gust86Orbit) (v : double) : Gust86Orbit :=
  {| m_satellite := m_satellite orbit;
     m_boundingRadius := v;
     m_period := m_period orbit |}.

(** The constructor [Gust86Orbit::Gust86Orbit(Satellite)]. *)
Definition Gust86Orbit_ctor (satellite : Satellite) : Gust86Orbit :=
  {| m_satellite := satellite; m_boundingRadius := #0.0; m_period := #1.0 |}.

(** The indeterminate initial contents of the automatic arrays of one call
    of [state]: its own [elements[6]] and [x[6]], and the arrays of
    [CalcGust86Elem]. *)
Record Frame : Type := mkFrame {
  frame_elements : list double;
  frame_x : list double;
  frame_angles : Angles
}.

Definition state (fuel : nat) (this : Gust86Orbit) (tdbSec : double) (fr : Frame)
  : outcome StateVector :=
  let GUST86_T0 := #2444239.5 in
  let t := secondsToDays tdbSec + (J2000 - GUST86_T0) in
  let satIndex := satIndex (m_satellite this) in
  let elements :=
    CalcGust86Elem t (m_satellite this) (frame_angles fr) (frame_elements fr) in
  mu ← index gust86_rmu satIndex;
  x ← EllipticToRectangularN fuel mu elements #0.0 (frame_x fr);
  let r := transpose (Matrix3d GUST86toJ2000) in
  let position :=
    vec_scale (mat_vec r (mkVector3d x.[0] x.[1] x.[2])) AU in
  let velocity :=
    vec_div (vec_scale (mat_vec r (mkVector3d x.[3] x.[4] x.[5])) AU)
            (daysToSeconds #1.0) in
  mret (mkStateVector position velocity).

Definition Create (satellite : Satellite) : outcome Gust86Orbit :=
  let orbit := Gust86Orbit_ctor satellite in
  let satIndex := satIndex satellite in
  f ← index fqn satIndex;
  let orbit := set_period orbit (daysToSeconds (#2.0 * PI / f)) in
  let orbit :=
    match satellite with
    | Miranda => set_boundingRadius orbit #1.4e5
    | Ariel => set_boundingRadius orbit #2.0e5
    | Umbriel => set_boundingRadius orbit #2.7e5
    | Titania => set_boundingRadius orbit #4.4e5
    | Oberon => set_boundingRadius orbit #5.9e5
    end in
  mret orbit.

(** *** Auxiliary definitions for the statements *)

(** The value of [Le] after [j] turns of the loop, whatever the test says. *)
Fixpoint kepler_iterate (j : nat) (L : double) (elem : list double) (Le : double)
  : double :=
  match j with
  | O => Le
  | S j => kepler_iterate j L elem (Le + kepler_dLe L elem Le)
  end.

(** The test [fabs(dLe) <= 1e-14] at turn [j] (counted from 0). *)
Definition kepler_test (j : nat) (L : double) (elem : list double) (Le : double)
  : bool :=
  fabs (kepler_dLe L elem (kepler_iterate j L elem Le)) <=? #1e-14.

(** The solver never leaves the loop. *)
Definition never_returns (n : double) (elem : list double) (dt : double) : Prop :=
  forall fuel, kepler fuel n elem dt = Spinning.

(** The radius that [Create] stores for each satellite. *)
Definition boundingRadius_of (s : Satellite) : double :=
  match s with
  | Miranda => #1.4e5
  | Ariel => #2.0e5
  | Umbriel => #2.7e5
  | Titania => #4.4e5
  | Oberon => #5.9e5
  end.

(** The automatic arrays of a call have their declared sizes. *)
Definition angles_sized (a : Angles) : Prop :=
  length (an a) = 5 /\ length (ae a) = 5 /\ length (ai a) = 5.

Definition frame_sized (fr : Frame) : Prop :=
  length (frame_elements fr) = 6 /\ length (frame_x fr) = 6 /\
  angles_sized (frame_angles fr).

(** The Gram matrix of a 3x3 matrix: entry [(i, j)] of [transpose m * m]. *)
Definition gram (m : nat -> nat -> double) (i j : nat) : double :=
  m 0 i * m 0 j + m 1 i * m 1 j + m 2 i * m 2 j.

(** *** The Kepler procedure in the words of the specification *)

(** The seed [F0 = L - h sin L + k cos L] on the mean longitude [L] of the
    element vector. *)
Definition spec_seed (L h k : double) : double :=
  L - h * sin L + k * cos L.

(** The correction
    [(L + n dt - F + h sin F - k cos F) / (1 - h cos F - k sin F)]. *)
Definition spec_correction (n L h k dt F : double) : double :=
  (L + n * dt - F + h * sin F - k * cos F) / (#1 - h * cos F - k * sin F).

Fixpoint spec_newton (fuel : nat) (n L h k dt F : double) : outcome double :=
  match fuel with
  | O => Spinning
  | S fuel =>
      let dF := spec_correction n L h k dt F in
      if fabs dF <=? #1e-14 then Returns (F + dF)
      else spec_newton fuel n L h k dt (F + dF)
  end.

Definition spec_kepler (fuel : nat) (n L h k dt : double) : outcome double :=
  spec_newton fuel n L h k dt (spec_seed L h k).

(** *** The planar state in the words of the specification *)

Definition spec_a (mu n : double) : double := pow (mu / (n * n)) (#1 / #3).
Definition spec_phi (h k : double) : double := sqrt (#1 - h * h - k * k).
Definition spec_psi (h k : double) : double := #1 / (#1 + spec_phi h k).
Definition spec_rho (h k F : double) : double := - h * cos F - k * sin F.
Definition spec_x1 (a h k F : double) : double :=
  a * (cos F - h - spec_psi h k * k * (- h * sin F + k * cos F)).
Definition spec_y1 (a h k F : double) : double :=
  a * (sin F - k + spec_psi h k * h * (- h * sin F + k * cos F)).
Definition spec_h_speed (a n h k F : double) : double :=
  a * n / (#1 + spec_rho h k F).

(** The seven sine terms of the mean longitude of Miranda, without the
    secular part [t * 4.44519055 - .23805158]. *)
Definition Miranda_longitude_series (a : Angles) : double :=
  let an := an a in
  sin (an.[0] - an.[1] * #3 + an.[2] * #2) * #0.02547217
  - sin (an.[0] * #2 - an.[1] * #6 + an.[2] * #4) * #0.00308831
  - sin (an.[0] * #3 - an.[1] * #9 + an.[2] * #6) * #3.181e-4
  - sin (an.[0] * #4 - an.[1] * #12 + an.[2] * #8) * #3.749e-5
  - sin (an.[0] - an.[1]) * #5.785e-5
  - sin (an.[0] * #2 - an.[1] * #2) * #6.232e-5
  - sin (an.[0] * #3 - an.[1] * #3) * #2.795e-5.

End Code.
End Gust86.

(** ** Exact real arithmetic *)

Module Ideal.
Import Reals Qreals Dbl.
Local Open Scope R_scope.

(** Truncation toward zero, and the remainder [fmod x y] that has the sign
    of [x]. *)
Definition Rtrunc (x : R) : Z :=
  if Rle_dec 0 x then Int_part x else (- Int_part (- x))%Z.

Definition Rfmod (x y : R) : R := x - y * IZR (Rtrunc (x / y)).

Definition Rleb (x y : R) : bool := if Rle_dec x y then true else false.

(** The interpretation of the operations of [double] by the real numbers:
    no rounding, no overflow, no NaN.  [pow] is the real power function,
    which is C's [pow] on a positive base only (at a base that is zero or
    negative it is 1, where C gives 0 or NaN): the theorems that read the
    value of [pow] keep its base positive. *)
#[export] Instance RealArith : DoubleArith := {|
  double := R;
  lit := Q2R;
  dadd := Rplus;
  dsub := Rminus;
  dmul := Rmult;
  ddiv := Rdiv;
  dneg := Ropp;
  dle := Rleb;
  sin := Rtrigo_def.sin;
  cos := Rtrigo_def.cos;
  sqrt := R_sqrt.sqrt;
  fabs := Rabs;
  fmod := Rfmod;
  pow := Rpower
|}.

(** One interpretation of the header parameters, to run the model on
    concrete inputs; every theorem holds for all interpretations. *)
#[export] Instance RealHeaders : Headers := {|
  PI := Rtrigo1.PI;
  J2000 := 2451545;
  AU := 149597870.691;
  secondsToDays := fun s => s / 86400;
  daysToSeconds := fun d => d * 86400
|}.

(** *** Concrete inputs *)

Import Gust86.

(** An element vector [(n, L, h, k, p, q)] of eccentricity above one, on
    which every Newton correction is twice the previous one. *)
Definition runaway_elements : list double :=
  [0; Rtrigo1.PI / 2; - (2 * Rtrigo1.PI); 2; 0; 0].

(** A circular orbit whose mean longitude is in its second turn. *)
Definition second_turn_elements : list double := [0; 7; 0; 0; 0; 0].

(** An orbit of eccentricity one half. *)
Definition half_eccentric : list double := [1; 0; 1 / 2; 0; 0; 0].

(** Two different contents of the automatic arrays of a call. *)
Definition zero_angles : Angles :=
  mkAngles [0; 0; 0; 0; 0] [0; 0; 0; 0; 0] [0; 0; 0; 0; 0].

Definition stale_angles : Angles :=
  mkAngles [1; 2; 3; 4; 5] [6; 7; 8; 9; 10] [11; 12; 13; 14; 15].

Definition zero_frame : Frame :=
  mkFrame [0; 0; 0; 0; 0; 0] [0; 0; 0; 0; 0; 0] zero_angles.

Definition stale_frame : Frame :=
  mkFrame [1; 2; 3; 4; 5; 6] [6; 5; 4; 3; 2; 1] stale_angles.

End Ideal.

(** ** Auxiliary definitions for the orbital properties *)

Module Orbital.
Import Reals Qreals Dbl Gust86.
Local Open Scope double_scope.
Local Open Scope R_scope.
Import Ideal.

(** The arithmetic [DA] with the roles of [sin] and [cos] exchanged:
    [CalcGust86Elem] evaluated in it has every sine of its series replaced
    by the cosine of the same argument, and conversely. *)
Definition swap_sin_cos (DA : DoubleArith) : DoubleArith := {|
  double := @double DA;
  lit := @lit DA;
  dadd := @dadd DA;
  dsub := @dsub DA;
  dmul := @dmul DA;
  ddiv := @ddiv DA;
  dneg := @dneg DA;
  dle := @dle DA;
  sin := @cos DA;
  cos := @sin DA;
  sqrt := @sqrt DA;
  fabs := @fabs DA;
  fmod := @fmod DA;
  pow := @pow DA
|}.

(** The numerator [L - x + h sin x - k cos x] and the divisor
    [1 - h cos x - k sin x] of the Newton correction [dLe] of
    [EllipticToRectangular] at the iterate [x], over the reals; the
    numerator is the residual of Kepler's equation at [x]. *)
Definition kepler_residual (L : R) (elem : list double) (x : R) : R :=
  L - x + elem.[2] * Rtrigo_def.sin x - elem.[3] * Rtrigo_def.cos x.

Definition kepler_divisor (elem : list double) (x : R) : R :=
  1 - elem.[2] * Rtrigo_def.cos x - elem.[3] * Rtrigo_def.sin x.

(** A circular orbit in the reference plane, and an orbit of eccentricity
    one tenth. *)
Definition circular_elements : list double := [1; 1; 0; 0; 0; 0].

Definition tenth_eccentric : list double := [1; 0; 1 / 10; 0; 0; 0].

(** A caller's array with more than six cells. *)
Definition long_array : list double := [1; 2; 3; 4; 5; 6; 7; 8].

(** The state that [EllipticToRectangularN] writes for the circular orbit
    with [mu = 1] at [dt = 0]. *)
Definition circular_state (xyz : list double) : list double :=
  rectangular (Rpower (1 / (1 * 1)) (1 / 3)) 1 circular_elements
    (kepler_L (DA := RealArith) 1 circular_elements 0) xyz.

(** Per satellite: a lower bound of the mean motion (radians per day), an
    upper bound of [|h|] and of [|k|], and an upper bound of the semi-major
    axis (astronomical units), as the amplitudes of the series give them. *)
Definition least_mean_motion (body : Satellite) : R :=
  match body with
  | Miranda => 4.4432
  | Ariel => 2.4923
  | Umbriel => 1.5156
  | Titania => 0.72125
  | Oberon => 0.46627
  end.

Definition greatest_eccentricity (body : Satellite) : R :=
  match body with
  | Miranda => 0.00183
  | Ariel => 0.00247
  | Umbriel => 0.00559
  | Titania => 0.00372
  | Oberon => 0.00385
  end.

Definition greatest_axis (body : Satellite) : R :=
  match body with
  | Miranda => 0.00086819
  | Ariel => 0.00127647
  | Umbriel => 0.00177837
  | Titania => 0.00291759
  | Oberon => 0.00390232
  end.

(** The square of the Euclidean norm of a vector. *)
Definition norm2 (v : Vector3d) : R :=
  v_x v * v_x v + v_y v * v_y v + v_z v * v_z v.

End Orbital.

(** ** [Create] on the integer value of the identity *)

Module Identity.
Import Dbl Gust86.
Section Code.
Context {DA : DoubleArith} {HD : Headers}.
Local Open Scope double_scope.

(** What [Create] can be given.  C++ converts any integer in the range of
    the enumeration to [Satellite], whether an enumerator has that value or
    not; [Create] itself reads its argument as the integer
    [(int) satellite].  The argument is kept here as that integer: the five
    enumerators are the values 0 to 4 ([satIndex]), and a value from 5 on
    names no body. *)
Record RawOrbit : Type := mkRawOrbit {
  raw_satellite : nat;
  raw_boundingRadius : double;
  raw_period : double
}.

(** [switch (satellite) { case Miranda: ... case Oberon: ... }]: five
    cases, each with its [break], and no [default]. *)
Definition Create_switch (satellite : nat) (orbit : RawOrbit) : RawOrbit :=
  match satellite with
  | 0 => mkRawOrbit (raw_satellite orbit) #1.4e5 (raw_period orbit)
  | 1 => mkRawOrbit (raw_satellite orbit) #2.0e5 (raw_period orbit)
  | 2 => mkRawOrbit (raw_satellite orbit) #2.7e5 (raw_period orbit)
  | 3 => mkRawOrbit (raw_satellite orbit) #4.4e5 (raw_period orbit)
  | 4 => mkRawOrbit (raw_satellite orbit) #5.9e5 (raw_period orbit)
  | _ => orbit
  end.

(** [Gust86Orbit::Create], statement by statement: the constructor, the
    cast, the period from the table, the switch, [return orbit]. *)
Definition Create_value (satellite : nat) : outcome RawOrbit :=
  let orbit := mkRawOrbit satellite #0.0 #1.0 in
  let satIndex := satellite in
  f ← index fqn satIndex;
  let orbit :=
    mkRawOrbit (raw_satellite orbit) (raw_boundingRadius orbit)
      (daysToSeconds (#2.0 * PI / f)) in
  let orbit := Create_switch satellite orbit in
  mret orbit.

(** *** Construction in the words of the specification *)

(** The result of a construction: an orbit, or the error
    [InvalidSatelliteIdentity] of the specification. *)
Inductive construction : Type :=
| Constructed (orbit : RawOrbit)
| InvalidSatelliteIdentity.

(** What the code yields, read as a construction. *)
Definition constructed (o : outcome RawOrbit) : outcome construction :=
  orbit ← o; mret (Constructed orbit).

(** "Fails at construction only for an unrecognized SatelliteIdentity":
    for one of the five identities the construction returns an orbit bound
    to it, and for any other value it returns the error. *)
Definition construction_meets_spec (satellite : nat)
    (result : outcome construction) : Prop :=
  if decide (satellite < 5)
  then exists orbit,
         result = Returns (Constructed orbit) /\ raw_satellite orbit = satellite
  else result = Returns InvalidSatelliteIdentity.

End Code.
End Identity.

(** ** The two operands of the Newton division *)

Module Newton.
Import Dbl.
Section Code.
Context {DA : DoubleArith}.
Local Open Scope double_scope.

(** [dLe] is the quotient of these two expressions, in the order of
    evaluation of the source. *)
Definition newton_numerator (L : double) (elem : list double) (Le : double)
  : double :=
  L - Le + elem.[2] * sin Le - elem.[3] * cos Le.

Definition newton_divisor (elem : list double) (Le : double) : double :=
  #1.0 - elem.[2] * cos Le - elem.[3] * sin Le.

End Code.
End Newton.

(** ** IEEE binary64 arithmetic *)

Module Binary64.
Import Dbl.

(** The functions of [<cmath>] whose values IEEE 754 does not fix.  They
    are a parameter of the interpretation: a theorem about a run states the
    values it needs of them. *)
Record Libm : Type := mkLibm {
  m_sin : PrimFloat.float -> PrimFloat.float;
  m_cos : PrimFloat.float -> PrimFloat.float;
  m_pow : PrimFloat.float -> PrimFloat.float -> PrimFloat.float
}.

(** A decimal literal, as the compiler converts it: the binary64 number
    nearest to the rational it denotes, ties to even.  The quotient is
    taken to 55 bits or more with a sticky last bit, and rounded once. *)
Definition of_Q (q : Q) : PrimFloat.float :=
  let n := Qnum q in
  let d := Z.pos (Qden q) in
  if (n =? 0)%Z then PrimFloat.zero
  else
    let a := Z.abs n in
    let s := (56 + Z.log2 d - Z.log2 a)%Z in
    let num := (if 0 <=? s then a * 2 ^ s else a)%Z in
    let den := (if 0 <=? s then d else d * 2 ^ (- s))%Z in
    let m := (2 * (num / den) + (if num mod den =? 0 then 0 else 1))%Z in
    FloatOps.SF2Prim
      (SpecFloat.binary_normalize FloatOps.prec FloatOps.emax
         (if n <? 0 then - m else m)%Z (- s - 1)%Z false).

(** [fmod], whose result C fixes exactly: [x - n y] for the integer [n]
    that is [x / y] truncated toward zero, with the sign of [x]; NaN when
    [x] is infinite or [y] is zero; [x] when [y] is infinite. *)
Definition c_fmod (x y : PrimFloat.float) : PrimFloat.float :=
  match FloatOps.Prim2SF x, FloatOps.Prim2SF y with
  | SpecFloat.S754_finite sx mx ex, SpecFloat.S754_finite _ my ey =>
      let e := Z.min ex ey in
      let r := ((Z.pos mx * 2 ^ (ex - e)) mod (Z.pos my * 2 ^ (ey - e)))%Z in
      FloatOps.SF2Prim
        (SpecFloat.binary_normalize FloatOps.prec FloatOps.emax
           (if sx then - r else r)%Z e sx)
  | SpecFloat.S754_finite _ _ _, SpecFloat.S754_infinity _ => x
  | SpecFloat.S754_zero _, SpecFloat.S754_finite _ _ _ => x
  | SpecFloat.S754_zero _, SpecFloat.S754_infinity _ => x
  | _, _ => PrimFloat.nan
  end.

(** The interpretation of the operations of [double] by binary64: the
    arithmetic operators, [sqrt], [fabs] and the comparison are those of
    IEEE 754 (round to nearest even), as the kernel computes them. *)
Definition arith (libm : Libm) : DoubleArith := {|
  double := PrimFloat.float;
  lit := of_Q;
  dadd := PrimFloat.add;
  dsub := PrimFloat.sub;
  dmul := PrimFloat.mul;
  ddiv := PrimFloat.div;
  dneg := PrimFloat.opp;
  dle := PrimFloat.leb;
  sin := m_sin libm;
  cos := m_cos libm;
  sqrt := PrimFloat.sqrt;
  fabs := PrimFloat.abs;
  fmod := c_fmod;
  pow := m_pow libm
|}.

(** The rational number that a finite binary64 number is. *)
Definition value (x : PrimFloat.float) : Q :=
  match FloatOps.Prim2SF x with
  | SpecFloat.S754_finite s m e =>
      (inject_Z (if s then Z.neg m else Z.pos m)
       * (if (0 <=? e)%Z then inject_Z (2 ^ e) else / inject_Z (2 ^ (- e))))%Q
  | _ => 0%Q
  end.

(** *** Concrete inputs *)

(** Elements [(n, L, h, k, p, q)] of eccentricity just below one, as a
    caller writes them, with the values of [L] and of the first [Le] of the
    Newton loop on them. *)
Definition near_parabolic_elements : list PrimFloat.float :=
  [of_Q 1; of_Q 0.9272894945585078; of_Q 0.6; of_Q 0.7999999999999999;
   of_Q 0; of_Q 0].

Definition near_parabolic_L : PrimFloat.float := of_Q 0.9272894945585078.

Definition near_parabolic_seed : PrimFloat.float := of_Q 0.9272952180016122.

(** A library known only where that run calls it, with the correctly
    rounded sine and cosine there: it answers NaN everywhere else. *)
Definition tabulated_libm : Libm := {|
  m_sin := fun x =>
    if PrimFloat.eqb x near_parabolic_L then of_Q 0.7999965659210343
    else if PrimFloat.eqb x near_parabolic_seed then of_Q 0.7999999999999999
    else PrimFloat.nan;
  m_cos := fun x =>
    if PrimFloat.eqb x near_parabolic_L then of_Q 0.6000045787446562
    else if PrimFloat.eqb x near_parabolic_seed then of_Q 0.6000000000000001
    else PrimFloat.nan;
  m_pow := fun _ _ => PrimFloat.nan
|}.

End Binary64.

(** ** Properties that hold for every arithmetic *)

Module Structural.
Import Dbl Gust86.
Section Generic.
Context {DA : DoubleArith} {HD : Headers}.
Local Open Scope double_scope.

(** *** Arrays of a known size *)

Lemma length_5_inv {A : Type} (l : list A) :
  length l = 5 -> exists a b c d e, l = [a; b; c; d; e].
Proof.
  intros Hl.
  do 5 (destruct l as [|? l]; [discriminate Hl|]).
  destruct l; [|discriminate Hl]. eauto 10.
Qed.

Lemma length_6_inv {A : Type} (l : list A) :
  length l = 6 -> exists a b c d e f, l = [a; b; c; d; e; f].
Proof.
  intros Hl.
  do 6 (destruct l as [|? l]; [discriminate Hl|]).
  destruct l; [|discriminate Hl]. eauto 10.
Qed.

Ltac explode_angles a H :=
  destruct a as [an_ ae_ ai_]; destruct H as (Hn_ & He_ & Hi_); simpl in Hn_, He_, Hi_;
  apply length_5_inv in Hn_ as (? & ? & ? & ? & ? & ->);
  apply length_5_inv in He_ as (? & ? & ? & ? & ? & ->);
  apply length_5_inv in Hi_ as (? & ? & ? & ? & ? & ->).

(** *** The angle loop *)

Lemma angle_loop_pure (t : double) (a a' : Angles) :
  angles_sized a -> angles_sized a' -> angle_loop t a = angle_loop t a'.
Proof.
  intros H H'. explode_angles a H. explode_angles a' H'. reflexivity.
Qed.

Lemma tables_have_five_entries :
  length fqn = 5 /\ length fqe = 5 /\ length fqi = 5 /\
  length phn = 5 /\ length phe = 5 /\ length phi = 5.
Proof. repeat split. Qed.

(** C6.  Whatever the three arrays contain on entry, after the loop the
    entry [i] of [an], [ae] and [ai], for each of the five indices, is the
    linear propagation [fq[i] * t + ph[i]] from the five-entry tables,
    reduced by [fmod] modulo [2 * M_PI]; the loop always ends, and its
    result is a function of [t] alone. *)
Theorem angle_propagator (t : double) (a : Angles) (i : nat) :
  angles_sized a -> i < 5 ->
  (an (angle_loop t a) !! i = Some (fmod (fqn.[i] * t + phn.[i]) (#2 * M_PI)) /\
   ae (angle_loop t a) !! i = Some (fmod (fqe.[i] * t + phe.[i]) (#2 * M_PI)) /\
   ai (angle_loop t a) !! i = Some (fmod (fqi.[i] * t + phi.[i]) (#2 * M_PI))) /\
  (length fqn = 5 /\ length fqe = 5 /\ length fqi = 5 /\
   length phn = 5 /\ length phe = 5 /\ length phi = 5) /\
  (forall a', angles_sized a' -> angle_loop t a' = angle_loop t a).
Proof.
  intros H Hi. split; [|split].
  - explode_angles a H.
    do 5 (destruct i as [|i]; [repeat split|]). lia.
  - apply tables_have_five_entries.
  - intros a' H'. apply angle_loop_pure; assumption.
Qed.

(** *** The Newton loop *)

Lemma kepler_loop_returns_iff (fuel : nat) (L : double) (elem : list double)
    (Le F : double) :
  kepler_loop fuel L elem Le = Returns F <->
  exists j, j < fuel /\
    (forall i, i < j -> kepler_test i L elem Le = false) /\
    kepler_test j L elem Le = true /\
    F = kepler_iterate (S j) L elem Le.
Proof.
  revert Le. induction fuel as [|fuel IH]; intros Le.
  - split; [discriminate|]. intros (j & Hj & _). lia.
  - cbn [kepler_loop].
    change (fabs (kepler_dLe L elem Le) <=? #1e-14) with (kepler_test 0 L elem Le).
    destruct (kepler_test 0 L elem Le) eqn:Htest.
    + split.
      * intros [= <-]. exists 0. repeat split; [lia | intros; lia | exact Htest].
      * intros (j & _ & Hbefore & _ & ->). destruct j as [|j]; [reflexivity|].
        specialize (Hbefore 0 ltac:(lia)). congruence.
    + rewrite IH. split.
      * intros (j & Hj & Hbefore & Hat & ->). exists (S j).
        repeat split; [lia | | exact Hat].
        intros [|i] Hi; [exact Htest | apply Hbefore; lia].
      * intros (j & Hj & Hbefore & Hat & ->). destruct j as [|j].
        { congruence. }
        exists j. repeat split; [lia | | exact Hat].
        intros i Hi. apply (Hbefore (S i)). lia.
Qed.

Lemma kepler_loop_spinning_iff (fuel : nat) (L : double) (elem : list double)
    (Le : double) :
  kepler_loop fuel L elem Le = Spinning <->
  forall j, j < fuel -> kepler_test j L elem Le = false.
Proof.
  revert Le. induction fuel as [|fuel IH]; intros Le.
  - split; [intros _ j Hj; lia | reflexivity].
  - cbn [kepler_loop].
    change (fabs (kepler_dLe L elem Le) <=? #1e-14) with (kepler_test 0 L elem Le).
    destruct (kepler_test 0 L elem Le) eqn:Htest.
    + split; [discriminate|]. intros Hall.
      specialize (Hall 0 ltac:(lia)). congruence.
    + rewrite IH. split.
      * intros Hall [|j] Hj; [exact Htest | apply Hall; lia].
      * intros Hall j Hj. apply (Hall (S j)). lia.
Qed.

Lemma kepler_loop_in_bounds (fuel : nat) (L : double) (elem : list double)
    (Le : double) :
  kepler_loop fuel L elem Le <> OutOfBounds.
Proof.
  revert Le. induction fuel as [|fuel IH]; intros Le; [discriminate|].
  cbn [kepler_loop]. destruct (_ <=? _); [discriminate | apply IH].
Qed.

(** C1 (as amended).  The loop has no cap on the number of turns and no
    error result: it is still turning after [fuel] turns exactly when none
    of the first [fuel] corrections passed the test [fabs(dLe) <= 1e-14];
    it returns exactly at the first turn [j], however large, whose
    correction passes the test, with the value of [Le] after that turn;
    and it has no other outcome. *)
Theorem kepler_loop_has_no_cap (fuel : nat) (L : double) (elem : list double)
    (Le : double) :
  (kepler_loop fuel L elem Le = Spinning <->
     forall j, j < fuel -> kepler_test j L elem Le = false) /\
  (forall F, kepler_loop fuel L elem Le = Returns F <->
     exists j, j < fuel /\
       (forall i, i < j -> kepler_test i L elem Le = false) /\
       kepler_test j L elem Le = true /\
       F = kepler_iterate (S j) L elem Le) /\
  kepler_loop fuel L elem Le <> OutOfBounds.
Proof.
  split; [apply kepler_loop_spinning_iff|].
  split; [intros F; apply kepler_loop_returns_iff | apply kepler_loop_in_bounds].
Qed.

(** The iterates of the loop are the iterates of [F += dF]. *)
Lemma kepler_iterate_iter (j : nat) (L : double) (elem : list double) (Le : double) :
  kepler_iterate j L elem Le = Nat.iter j (fun F => F + kepler_dLe L elem F) Le.
Proof.
  revert Le. induction j as [|j IH]; intros Le; [reflexivity|].
  cbn [kepler_iterate]. rewrite IH, Nat.iter_succ_r. reflexivity.
Qed.

(** C3 (as amended).  With [L' = fmod(L + n dt, 2 M_PI)] the reduced mean
    longitude at the query time, the solver seeds
    [F0 = L' - h sin L' + k cos L'], applies the correction
    [dF = (L' - F + h sin F - k cos F) / (1 - h cos F - k sin F)] with
    [F += dF], and returns exactly at the first correction with
    [fabs(dF) <= 1e-14], after having applied it. *)
Theorem kepler_procedure (fuel : nat) (n : double) (elem : list double)
    (dt : double) (F : double) :
  let L' := fmod (elem.[1] + n * dt) (#2.0 * M_PI) in
  let h := elem.[2] in
  let k := elem.[3] in
  let dF := fun F => (L' - F + h * sin F - k * cos F)
                     / (#1.0 - h * cos F - k * sin F) in
  let F_ := fun j => Nat.iter j (fun F => F + dF F) (L' - h * sin L' + k * cos L') in
  kepler fuel n elem dt = Returns F <->
  exists j, j < fuel /\
    (forall i, i < j -> (fabs (dF (F_ i)) <=? #1e-14) = false) /\
    (fabs (dF (F_ j)) <=? #1e-14) = true /\
    F = F_ j + dF (F_ j).
Proof.
  intros L' h k dF F_. unfold kepler. rewrite kepler_loop_returns_iff.
  assert (Hit : forall j, kepler_iterate j (kepler_L n elem dt) elem
                   (kepler_seed (kepler_L n elem dt) elem) = F_ j)
    by (intros j; apply kepler_iterate_iter).
  assert (Htest : forall j, kepler_test j (kepler_L n elem dt) elem
                   (kepler_seed (kepler_L n elem dt) elem)
                   = (fabs (dF (F_ j)) <=? #1e-14))
    by (intros j; unfold kepler_test; rewrite Hit; reflexivity).
  assert (Hnext : forall j, F_ (S j) = F_ j + dF (F_ j)) by reflexivity.
  split; intros (j & Hj & Hbefore & Hat & ->); exists j;
    (repeat split; [exact Hj | | | ]).
  - intros i Hi. rewrite <- Htest. auto.
  - rewrite <- Htest. exact Hat.
  - rewrite Hit. apply Hnext.
  - intros i Hi. rewrite Htest. auto.
  - rewrite Htest. exact Hat.
  - rewrite Hit. symmetry. apply Hnext.
Qed.

(** *** Every cell of an output array is written *)

Lemma CalcGust86Elem_overwrites (t : double) (body : Satellite) (a a' : Angles)
    (el el' : list double) :
  angles_sized a -> angles_sized a' -> length el = 6 -> length el' = 6 ->
  CalcGust86Elem t body a el = CalcGust86Elem t body a' el'.
Proof.
  intros Ha Ha' Hl Hl'. unfold CalcGust86Elem.
  rewrite (angle_loop_pure t a a' Ha Ha').
  apply length_6_inv in Hl as (? & ? & ? & ? & ? & ? & ->).
  apply length_6_inv in Hl' as (? & ? & ? & ? & ? & ? & ->).
  destruct body; reflexivity.
Qed.

Lemma CalcGust86Elem_length (t : double) (body : Satellite) (a : Angles)
    (el : list double) :
  length (CalcGust86Elem t body a el) = length el.
Proof.
  unfold CalcGust86Elem.
  destruct body;
    [ unfold CalcGust86Elem_Miranda | unfold CalcGust86Elem_Ariel
    | unfold CalcGust86Elem_Umbriel | unfold CalcGust86Elem_Titania
    | unfold CalcGust86Elem_Oberon ];
    cbv zeta; rewrite !length_insert; reflexivity.
Qed.

Lemma rectangular_overwrites (a n : double) (elem : list double) (Le : double)
    (xyz xyz' : list double) :
  length xyz = 6 -> length xyz' = 6 ->
  rectangular a n elem Le xyz = rectangular a n elem Le xyz'.
Proof.
  intros Hl Hl'.
  apply length_6_inv in Hl as (? & ? & ? & ? & ? & ? & ->).
  apply length_6_inv in Hl' as (? & ? & ? & ? & ? & ? & ->).
  reflexivity.
Qed.

Lemma EllipticToRectangularN_overwrites (fuel : nat) (mu : double)
    (elem : list double) (dt : double) (xyz xyz' : list double) :
  length xyz = 6 -> length xyz' = 6 ->
  EllipticToRectangularN fuel mu elem dt xyz
  = EllipticToRectangularN fuel mu elem dt xyz'.
Proof.
  intros Hl Hl'. unfold EllipticToRectangularN, EllipticToRectangular.
  destruct (kepler _ _ _ _) as [Le| |]; [|reflexivity..].
  cbn. f_equal. apply rectangular_overwrites; assumption.
Qed.

Lemma EllipticToRectangularN_in_bounds (fuel : nat) (mu : double)
    (elem : list double) (dt : double) (xyz : list double) :
  EllipticToRectangularN fuel mu elem dt xyz <> OutOfBounds.
Proof.
  unfold EllipticToRectangularN, EllipticToRectangular, kepler.
  destruct (kepler_loop _ _ _ _) as [Le| |] eqn:Hloop; cbn; try discriminate.
  exfalso. exact (kepler_loop_in_bounds _ _ _ _ Hloop).
Qed.

(** *** The constant tables are indexed inside their bounds *)

Lemma satIndex_lt_5 (s : Satellite) : satIndex s < 5.
Proof. destruct s; cbn; lia. Qed.

Lemma index_fqn (s : Satellite) : index fqn (satIndex s) = Returns fqn.[satIndex s].
Proof. destruct s; reflexivity. Qed.

Lemma index_gust86_rmu (s : Satellite) :
  index gust86_rmu (satIndex s) = Returns gust86_rmu.[satIndex s].
Proof. destruct s; reflexivity. Qed.

Lemma state_in_bounds (fuel : nat) (this : Gust86Orbit) (tdbSec : double)
    (fr : Frame) :
  state fuel this tdbSec fr <> OutOfBounds.
Proof.
  unfold state. rewrite index_gust86_rmu. cbn.
  destruct (EllipticToRectangularN _ _ _ _ _) as [x| |] eqn:Hx; cbn;
    try discriminate.
  exfalso. exact (EllipticToRectangularN_in_bounds _ _ _ _ _ Hx).
Qed.

(** C10.  [state] is a function of the satellite and of the time alone: two
    calls with the same orbit and the same [tdbSec] give the same outcome
    and the same state vector, whatever the automatic arrays of either call
    contained on entry.  The only objects read besides the arguments are
    the constant tables; every cell of [elements], [x], [an], [ae] and [ai]
    is written before it is read. *)
Theorem state_deterministic (fuel : nat) (this : Gust86Orbit) (tdbSec : double)
    (fr fr' : Frame) :
  frame_sized fr -> frame_sized fr' ->
  state fuel this tdbSec fr = state fuel this tdbSec fr'.
Proof.
  intros (Hel & Hx & Ha) (Hel' & Hx' & Ha'). unfold state.
  rewrite (CalcGust86Elem_overwrites _ _ _ (frame_angles fr') _ (frame_elements fr')
             Ha Ha' Hel Hel').
  rewrite index_gust86_rmu. cbn.
  rewrite (EllipticToRectangularN_overwrites _ _ _ _ _ (frame_x fr') Hx Hx').
  reflexivity.
Qed.

Lemma Create_value_outside (v : nat) :
  5 <= v -> Identity.Create_value v = OutOfBounds.
Proof.
  intros Hv. unfold Identity.Create_value. cbv zeta.
  unfold index. rewrite lookup_ge_None_2 by (cbn; lia). reflexivity.
Qed.

(** C2 (as amended).  [Create] has no failure path.  For each of the five
    bodies it returns an orbit (bound to that body, with its literal radius
    and its period), and so it does on the integer value of that body: on
    the values 0 to 4 it constructs as the specification says.  A value
    from 5 on is not rejected: the read of the table [fqn] is then outside
    its bounds, the switch changes nothing, and the outcome is not the
    error [InvalidSatelliteIdentity] that the specification wants.  The
    table has an entry exactly at the indices of the five bodies, and no
    call of [state] leaves the bounds of a table, whatever orbit and time
    it is given. *)
Theorem Create_has_no_failure_path (s : Satellite) (v : nat) :
  Create s = Returns {| m_satellite := s;
                        m_boundingRadius := boundingRadius_of s;
                        m_period := daysToSeconds (#2.0 * PI / fqn.[satIndex s]) |} /\
  Identity.Create_value (satIndex s)
  = Returns (Identity.mkRawOrbit (satIndex s) (boundingRadius_of s)
               (daysToSeconds (#2.0 * PI / fqn.[satIndex s]))) /\
  (v < 5 ->
   Identity.construction_meets_spec v
     (Identity.constructed (Identity.Create_value v))) /\
  (5 <= v ->
   Identity.Create_value v = OutOfBounds /\
   (forall orbit, Identity.Create_switch v orbit = orbit) /\
   ~ Identity.construction_meets_spec v
       (Identity.constructed (Identity.Create_value v))) /\
  (forall i, is_Some (fqn !! i) <-> exists s', satIndex s' = i) /\
  (forall fuel this tdbSec fr, state fuel this tdbSec fr <> OutOfBounds).
Proof.
  split; [unfold Create; rewrite index_fqn; destruct s; reflexivity|].
  split; [destruct s; reflexivity|].
  split.
  { intros Hv. unfold Identity.construction_meets_spec.
    rewrite decide_True by exact Hv.
    do 5 (destruct v as [|v]; [eexists; split; reflexivity|]). lia. }
  split.
  { intros Hv. split; [exact (Create_value_outside v Hv)|]. split.
    - intros orbit. do 5 (destruct v as [|v]; [lia|]). reflexivity.
    - unfold Identity.construction_meets_spec.
      rewrite decide_False by lia.
      rewrite (Create_value_outside v Hv). discriminate. }
  split.
  - intros i. rewrite lookup_lt_is_Some. change (length fqn) with 5. split.
    + intros Hi. do 5 (destruct i as [|i]; [first
        [ by exists Miranda | by exists Ariel | by exists Umbriel
        | by exists Titania | by exists Oberon ]|]). lia.
    + intros [s' <-]. apply satIndex_lt_5.
  - intros fuel this tdbSec fr. apply state_in_bounds.
Qed.

End Generic.
End Structural.

(** ** Properties of the code under exact real arithmetic *)

Module Analytic.
Import Reals Lra Qreals Dbl Gust86 Ideal Structural.
Local Open Scope double_scope.
Local Open Scope R_scope.

(** *** Literals and comparisons *)

(** Rewrites every literal [Q2R q] of the goal into a quotient of two
    integer constants. *)
Ltac unlit :=
  repeat match goal with
  | |- context [Q2R ?q] =>
      let n := eval vm_compute in (Qnum q) in
      let d := eval vm_compute in (Qden q) in
      change (Q2R q) with (IZR n / IZR (Zpos d))
  end.

Lemma Rleb_true (x y : R) : Rleb x y = true <-> x <= y.
Proof. unfold Rleb. destruct (Rle_dec x y); split; (discriminate || tauto). Qed.

Lemma Rleb_false (x y : R) : Rleb x y = false <-> y < x.
Proof.
  unfold Rleb. destruct (Rle_dec x y); split; try discriminate; try lra; reflexivity.
Qed.

(** *** [fmod] on small arguments *)

Lemma Rfmod_small (x y : R) : 0 <= x < y -> Rfmod x y = x.
Proof.
  intros [H0 Hy]. unfold Rfmod, Rtrunc.
  assert (Hq : 0 <= x / y < 1).
  { split; [apply Rle_mult_inv_pos; lra|].
    apply (Rmult_lt_reg_r y); [lra|]. unfold Rdiv.
    rewrite Rmult_assoc, Rinv_l by lra. lra. }
  destruct (Rle_dec 0 (x / y)); [|lra].
  rewrite <- (Int_part_spec (x / y) 0) by (simpl; lra). simpl. lra.
Qed.

Lemma Rfmod_second_turn (x y : R) : 0 < y <= x -> x < 2 * y -> Rfmod x y = x - y.
Proof.
  intros [H0 Hy] H2. unfold Rfmod, Rtrunc.
  assert (Hq : 1 <= x / y < 2).
  { split.
    - apply (Rmult_le_reg_r y); [lra|]. unfold Rdiv.
      rewrite Rmult_assoc, Rinv_l by lra. lra.
    - apply (Rmult_lt_reg_r y); [lra|]. unfold Rdiv.
      rewrite Rmult_assoc, Rinv_l by lra. lra. }
  destruct (Rle_dec 0 (x / y)); [|lra].
  rewrite <- (Int_part_spec (x / y) 1) by (simpl; lra). simpl. lra.
Qed.

(** *** The Newton denominator *)

(** Under exact real arithmetic, for all [h], [k] with [h^2 + k^2 < 1] and
    every value [F] of the iterate, the divisor [1 - h cos F - k sin F] of
    the correction is strictly positive.  (In binary64 it is not:
    [Rounding.newton_divisor_rounds_to_zero].) *)
Theorem newton_denominator_positive (L : double) (elem : list double) (Le : double) :
  elem.[2] * elem.[2] + elem.[3] * elem.[3] < 1 ->
  0 < 1 - elem.[2] * Rtrigo_def.cos Le - elem.[3] * Rtrigo_def.sin Le /\
  kepler_dLe L elem Le =
    (L - Le + elem.[2] * Rtrigo_def.sin Le - elem.[3] * Rtrigo_def.cos Le)
    / (1 - elem.[2] * Rtrigo_def.cos Le - elem.[3] * Rtrigo_def.sin Le).
Proof.
  intros He. split.
  - pose proof (sin2_cos2 Le) as Hsc. unfold Rsqr in Hsc.
    set (c := Rtrigo_def.cos Le) in *. set (s := Rtrigo_def.sin Le) in *.
    set (h := elem.[2]) in *. set (k := elem.[3]) in *.
    clearbody c s h k.
    pose proof (Rle_0_sqr (h - c)) as H1. pose proof (Rle_0_sqr (k - s)) as H2.
    unfold Rsqr in H1, H2. nra.
  - unfold kepler_dLe. cbn. unlit. f_equal. lra.
Qed.

(** *** Size of the eccentricity and inclination vectors *)

Lemma inside_unit_disc (x y : R) :
  - (1 / 2) <= x <= 1 / 2 -> - (1 / 2) <= y <= 1 / 2 -> 0 < 1 - x * x - y * y.
Proof. intros Hx Hy. nra. Qed.

(** Replaces every [cos _] and [sin _] of the goal by a variable known to
    lie in [[-1, 1]]. *)
Ltac bound_trig :=
  repeat match goal with
  | |- context [Rtrigo_def.cos ?x] =>
      let c := fresh "c" in
      pose proof (COS_bound x); set (c := Rtrigo_def.cos x) in *; clearbody c
  | |- context [Rtrigo_def.sin ?x] =>
      let s := fresh "s" in
      pose proof (SIN_bound x); set (s := Rtrigo_def.sin x) in *; clearbody s
  end.

Lemma elements_bounded (t : double) (body : Satellite) (a : Angles)
    (el : list double) (i : nat) :
  length el = 6%nat -> (2 <= i <= 5)%nat ->
  - (1 / 2) <= (CalcGust86Elem t body a el).[i] <= 1 / 2.
Proof.
  intros Hl Hi. unfold CalcGust86Elem.
  set (A := angle_loop t a). clearbody A.
  apply length_6_inv in Hl as (? & ? & ? & ? & ? & ? & ->).
  assert (Hcases : i = 2%nat \/ i = 3%nat \/ i = 4%nat \/ i = 5%nat) by lia.
  destruct body; destruct Hcases as [-> | [-> | [-> | ->]]];
    cbn; bound_trig; unlit; lra.
Qed.

(** C7.  For each of the five satellites and every time [t], the element
    vector written by [CalcGust86Elem] has [h^2 + k^2 < 1] (elements 2, 3)
    and [p^2 + q^2 < 1] (elements 4, 5); hence the arguments of both square
    roots of the converter are strictly positive, and the divisor of every
    Newton correction is strictly positive. *)
Theorem elements_inside_unit_disc (t : double) (body : Satellite) (a : Angles)
    (el : list double) :
  length el = 6%nat ->
  let e := CalcGust86Elem t body a el in
  e.[2] * e.[2] + e.[3] * e.[3] < 1 /\
  e.[4] * e.[4] + e.[5] * e.[5] < 1 /\
  0 < 1 - e.[2] * e.[2] - e.[3] * e.[3] /\
  0 < 1 - e.[4] * e.[4] - e.[5] * e.[5] /\
  forall Le, 0 < 1 - e.[2] * Rtrigo_def.cos Le - e.[3] * Rtrigo_def.sin Le.
Proof.
  intros Hl e.
  pose proof (elements_bounded t body a el 2 Hl ltac:(lia)) as H2.
  pose proof (elements_bounded t body a el 3 Hl ltac:(lia)) as H3.
  pose proof (elements_bounded t body a el 4 Hl ltac:(lia)) as H4.
  pose proof (elements_bounded t body a el 5 Hl ltac:(lia)) as H5.
  fold e in H2, H3, H4, H5.
  set (h := e.[2]) in *. set (k := e.[3]) in *.
  set (p := e.[4]) in *. set (q := e.[5]) in *. clearbody h k p q.
  pose proof (inside_unit_disc h k H2 H3). pose proof (inside_unit_disc p q H4 H5).
  repeat split; try lra.
  intros Le. pose proof (sin2_cos2 Le) as Hsc. unfold Rsqr in Hsc.
  set (c := Rtrigo_def.cos Le) in *. set (s := Rtrigo_def.sin Le) in *.
  clearbody c s.
  pose proof (Rle_0_sqr (h - c)) as G1. pose proof (Rle_0_sqr (k - s)) as G2.
  unfold Rsqr in G1, G2. nra.
Qed.

(** *** The rotation table *)

(** C8.  The table [GUST86toJ2000] is orthonormal up to [1e-18], well below
    the unit roundoff of [double]: for the matrix [m] that [state] builds
    from it, and for its transpose, every entry of [transpose m * m]
    differs from the identity matrix by at most [1e-18]. *)
Theorem GUST86toJ2000_orthonormal (i j : nat) :
  (i < 3)%nat -> (j < 3)%nat ->
  Rabs (gram (transpose (Matrix3d GUST86toJ2000)) i j
        - (if Nat.eqb i j then 1 else 0)) <= 1e-18 /\
  Rabs (gram (Matrix3d GUST86toJ2000) i j
        - (if Nat.eqb i j then 1 else 0)) <= 1e-18.
Proof.
  intros Hi Hj.
  assert (Hic : i = 0%nat \/ i = 1%nat \/ i = 2%nat) by lia.
  assert (Hjc : j = 0%nat \/ j = 1%nat \/ j = 2%nat) by lia.
  destruct Hic as [-> | [-> | ->]]; destruct Hjc as [-> | [-> | ->]];
    split; apply Rabs_le; set (eps := 1e-18); cbn; unlit; subst eps; lra.
Qed.

(** *** The secular part of the mean longitude *)

(** C9.  For Miranda (satellite index 0) at [t = 0], the mean longitude
    [elements[1]] is the sum of its seven sine terms and of the literal
    [-0.23805158]: the secular part [t * 4.44519055 - .23805158]
    contributes exactly that constant. *)
Theorem Miranda_secular_bias (a : Angles) (el : list double) :
  length el = 6%nat ->
  satIndex Miranda = 0%nat /\
  (forall t : double,
     (CalcGust86Elem t Miranda a el).[1]
     = Miranda_longitude_series (angle_loop t a)
       + (t * Q2R 4.44519055 - Q2R 0.23805158)) /\
  (CalcGust86Elem (DA := RealArith) 0 Miranda a el).[1]
  - Miranda_longitude_series (angle_loop (DA := RealArith) 0 a) = - 0.23805158.
Proof.
  intros Hl. apply length_6_inv in Hl as (? & ? & ? & ? & ? & ? & ->).
  split; [reflexivity|]. split.
  - intros t. unfold CalcGust86Elem. set (A := angle_loop _ a). clearbody A.
    cbn. lra.
  - unfold CalcGust86Elem. set (A := angle_loop _ a). clearbody A.
    cbn. unlit. lra.
Qed.

(** *** The planar state *)

Lemma Q2R_canon (q r : Q) :
  Qeq_bool q r = true -> Q2R q = IZR (Qnum r) / IZR (Zpos (Qden r)).
Proof. intros H. apply Qeq_bool_eq in H. rewrite (Qeq_eqR _ _ H). reflexivity. Qed.

(** Like [unlit], with the quotient in lowest terms. *)
Ltac unlit_red :=
  repeat match goal with
  | |- context [Q2R ?q] =>
      let r := eval vm_compute in (Qred q) in
      rewrite (Q2R_canon q r eq_refl); cbn [Qnum Qden]
  end.

(** C5.  The converter takes [a = (mu / n^2)^(1/3)] and, from the solved
    [F], the planar position [x1], [y1] and the velocity scale [h_speed] of
    the specification, with [phi = sqrt (1 - h^2 - k^2)],
    [psi = 1 / (1 + phi)] and [rho = - h cos F - k sin F]; what it writes
    to [xyz] is the rotation of that planar state by [(p, q)]. *)
Theorem rectangular_state_formulas (fuel : nat) (mu : double) (elem : list double)
    (dt : double) (xyz : list double) :
  let n := elem.[0] in
  let h := elem.[2] in
  let k := elem.[3] in
  let p := elem.[4] in
  let q := elem.[5] in
  let a := spec_a mu n in
  let rtp := 1 - 2 * (q * q) in
  let rtq := 1 - 2 * (p * p) in
  let rdg := 2 * q * p in
  let dwho := 2 * R_sqrt.sqrt (1 - p * p - q * q) in
  EllipticToRectangularN fuel mu elem dt xyz
  = (F ← kepler fuel n elem dt;
     let x1 := spec_x1 a h k F in
     let y1 := spec_y1 a h k F in
     let h_speed := spec_h_speed a n h k F in
     let vx1 := h_speed * (- Rtrigo_def.sin F - spec_psi h k * spec_rho h k F * k) in
     let vy1 := h_speed * (Rtrigo_def.cos F + spec_psi h k * spec_rho h k F * h) in
     mret (<[5%nat := (- vx1 * q + vy1 * p) * dwho]>
          (<[4%nat := vx1 * rdg + vy1 * rtq]>
          (<[3%nat := vx1 * rtp + vy1 * rdg]>
          (<[2%nat := (- x1 * q + y1 * p) * dwho]>
          (<[1%nat := x1 * rdg + y1 * rtq]>
          (<[0%nat := x1 * rtp + y1 * rdg]> xyz))))))).
Proof.
  intros n h k p q a rtp rtq rdg dwho.
  subst a rtp rtq rdg dwho n h k p q.
  unfold EllipticToRectangularN, EllipticToRectangular.
  destruct (kepler fuel _ elem dt) as [F| |]; [|reflexivity..].
  cbn [mbind outcome_bind mret outcome_ret]. f_equal.
  unfold rectangular, spec_x1, spec_y1, spec_h_speed, spec_psi, spec_phi,
    spec_rho, spec_a.
  cbn -[insert lookup_total]. unlit_red.
  replace (1 / 1) with 1 by lra. replace (2 / 1) with 2 by lra.
  replace (3 / 1) with 3 by lra.
  set (n := elem.[0]). set (h := elem.[2]). set (k := elem.[3]).
  set (p := elem.[4]). set (q := elem.[5]).
  set (A := Rpower _ _).
  set (phi := R_sqrt.sqrt (1 - h * h - k * k)).
  set (psi := 1 / (1 + phi)).
  set (rho := - h * Rtrigo_def.cos F - k * Rtrigo_def.sin F).
  set (hs := A * n / (1 + rho)).
  set (w := R_sqrt.sqrt (1 - p * p - q * q)).
  repeat (apply f_equal2; [ring|]). reflexivity.
Qed.

(** *** Inputs on which the solver departs from the specification *)

Lemma runaway_dLe (m : nat) :
  kepler_dLe (DA := RealArith) (Rtrigo1.PI / 2)%R runaway_elements
    (Rtrigo1.PI / 2 + 2 * INR m * Rtrigo1.PI)%R
  = 2 * INR (m + 1) * Rtrigo1.PI.
Proof.
  unfold kepler_dLe, runaway_elements. cbn.
  rewrite sin_period, cos_period, sin_PI2, cos_PI2, plus_INR.
  unlit. cbn [INR]. field.
Qed.

Lemma runaway_loop (fuel m : nat) :
  kepler_loop (DA := RealArith) fuel (Rtrigo1.PI / 2)%R runaway_elements
    (Rtrigo1.PI / 2 + 2 * INR m * Rtrigo1.PI)%R = Spinning.
Proof.
  revert m. induction fuel as [|fuel IH]; intros m; [reflexivity|].
  cbn [kepler_loop]. rewrite runaway_dLe.
  assert (Hbig : Rleb (Rabs (2 * INR (m + 1) * Rtrigo1.PI)) (Q2R 1e-14) = false).
  { apply Rleb_false. unlit.
    pose proof PI2_1. pose proof (pos_INR m). rewrite plus_INR. cbn [INR].
    rewrite Rabs_right by nra. nra. }
  cbn [fabs dle RealArith lit dadd]. rewrite Hbig.
  replace (Rtrigo1.PI / 2 + 2 * INR m * Rtrigo1.PI + 2 * INR (m + 1) * Rtrigo1.PI)
    with (Rtrigo1.PI / 2 + 2 * INR (m + (m + 1)) * Rtrigo1.PI)
    by (rewrite !plus_INR; ring).
  apply IH.
Qed.

(** C1, counterexample.  On the element vector
    [(n, L, h, k, p, q) = (0, PI/2, -2 PI, 2, 0, 0)] with [dt = 0] the
    corrections double at every turn: the solver goes past any cap and
    never returns, neither a value nor an error. *)
Lemma kepler_never_returns_on_runaway_elements :
  never_returns (DA := RealArith) 0 runaway_elements 0.
Proof.
  intros fuel. unfold kepler.
  assert (HL : kepler_L (DA := RealArith) 0 runaway_elements 0 = Rtrigo1.PI / 2).
  { unfold kepler_L, runaway_elements, M_PI. cbn.
    replace (Rtrigo1.PI / 2 + 0 * 0) with (Rtrigo1.PI / 2) by ring.
    apply Rfmod_small. unlit. pose proof PI2_1. pose proof PI_4. lra. }
  rewrite HL.
  replace (kepler_seed (DA := RealArith) (Rtrigo1.PI / 2)%R runaway_elements)
    with (Rtrigo1.PI / 2 + 2 * INR 1 * Rtrigo1.PI).
  - apply runaway_loop.
  - unfold kepler_seed, runaway_elements. cbn. rewrite sin_PI2, cos_PI2. ring.
Qed.

Lemma kepler_loop_first_turn (fuel : nat) (L : double) (elem : list double)
    (Le : double) :
  Rabs (kepler_dLe L elem Le) <= 1e-14 ->
  kepler_loop (S fuel) L elem Le = Returns (Le + kepler_dLe L elem Le)%R.
Proof.
  intros H. cbn [kepler_loop].
  replace (fabs (kepler_dLe L elem Le) <=? #1e-14)%D with true; [reflexivity|].
  symmetry. apply Rleb_true. cbn [lit RealArith]. unlit. exact H.
Qed.

Lemma spec_newton_first_turn (fuel : nat) (n L h k dt F : double) :
  Rabs (spec_correction n L h k dt F) <= 1e-14 ->
  spec_newton (S fuel) n L h k dt F
  = Returns (F + spec_correction n L h k dt F)%R.
Proof.
  intros H. cbn [spec_newton].
  replace (fabs (spec_correction n L h k dt F) <=? #1e-14)%D with true;
    [reflexivity|].
  symmetry. apply Rleb_true. cbn [lit RealArith]. unlit. exact H.
Qed.

(** C3, counterexample.  On [(n, L, h, k) = (0, 7, 0, 0)] with [dt = 0] the
    solver starts from, and returns, [7 - 2 M_PI]; the procedure of the
    specification starts from, and returns, [7]. *)
Lemma kepler_seed_is_reduced :
  kepler (DA := RealArith) 1 0 second_turn_elements 0
  = Returns (7 - 2 * @M_PI RealArith)%R /\
  spec_kepler (DA := RealArith) 1 0 7 0 0 0 = Returns 7 /\
  kepler (DA := RealArith) 1 0 second_turn_elements 0
  <> spec_kepler (DA := RealArith) 1 0 7 0 0 0.
Proof.
  assert (HL : kepler_L (DA := RealArith) 0 second_turn_elements 0
               = 7 - 2 * @M_PI RealArith).
  { unfold kepler_L, second_turn_elements, M_PI. cbn.
    replace (7 + 0 * 0) with 7 by ring.
    rewrite Rfmod_second_turn by (unlit; lra). unlit. lra. }
  assert (Hcode : kepler (DA := RealArith) 1 0 second_turn_elements 0
                  = Returns (7 - 2 * @M_PI RealArith)%R).
  { unfold kepler. rewrite HL. set (L' := 7 - 2 * @M_PI RealArith).
    assert (Hseed : kepler_seed L' second_turn_elements = L')
      by (unfold kepler_seed, second_turn_elements; cbn; ring).
    assert (Hd : kepler_dLe L' second_turn_elements L' = 0)
      by (unfold kepler_dLe, second_turn_elements; cbn; unlit; field).
    rewrite Hseed, kepler_loop_first_turn; rewrite Hd.
    - f_equal. ring.
    - rewrite Rabs_R0. lra. }
  assert (Hspec : spec_kepler (DA := RealArith) 1 0 7 0 0 0 = Returns 7).
  { unfold spec_kepler.
    assert (Hseed : spec_seed (DA := RealArith) 7 0 0 = 7)
      by (unfold spec_seed; cbn; ring).
    assert (Hd : spec_correction (DA := RealArith) 0 7 0 0 0 7 = 0)
      by (unfold spec_correction; cbn; unlit; field).
    rewrite Hseed, spec_newton_first_turn; rewrite Hd.
    - f_equal. ring.
    - rewrite Rabs_R0. lra. }
  split; [exact Hcode|]. split; [exact Hspec|].
  rewrite Hcode, Hspec. intros [= H]. revert H. unfold M_PI. cbn. unlit. lra.
Qed.

(** *** The theorems with hypotheses, on concrete inputs *)

(** The angle [an[2]] at [t = 1], from arrays that held other values. *)
Lemma angle_propagator_witness :
  angles_sized stale_angles /\ (2 < 5)%nat /\
  an (angle_loop (DA := RealArith) 1 stale_angles) !! 2%nat
  = Some (Rfmod (fqn.[2] * 1 + phn.[2]) (Q2R 2 * M_PI)).
Proof.
  assert (Hs : angles_sized stale_angles) by (repeat split).
  assert (Hi : (2 < 5)%nat) by lia.
  split; [exact Hs|]. split; [exact Hi|].
  exact (proj1 (proj1 (angle_propagator (DA := RealArith) 1 stale_angles 2 Hs Hi))).
Defined.

(** Two calls for Oberon at [tdbSec = 0], from different contents of the
    automatic arrays. *)
Lemma state_deterministic_witness :
  frame_sized zero_frame /\ frame_sized stale_frame /\
  state 60 (Gust86Orbit_ctor Oberon) 0 zero_frame
  = state 60 (Gust86Orbit_ctor Oberon) 0 stale_frame.
Proof.
  assert (H0 : frame_sized zero_frame) by (repeat split).
  assert (H1 : frame_sized stale_frame) by (repeat split).
  split; [exact H0|]. split; [exact H1|].
  exact (state_deterministic 60 (Gust86Orbit_ctor Oberon) 0 zero_frame stale_frame
           H0 H1).
Defined.

(** The eccentricity vector of Titania at [t = 0]. *)
Lemma elements_inside_unit_disc_witness :
  length (frame_elements stale_frame) = 6%nat /\
  (CalcGust86Elem (DA := RealArith) 0 Titania stale_angles
     (frame_elements stale_frame)).[2]
  * (CalcGust86Elem (DA := RealArith) 0 Titania stale_angles
     (frame_elements stale_frame)).[2]
  + (CalcGust86Elem (DA := RealArith) 0 Titania stale_angles
     (frame_elements stale_frame)).[3]
  * (CalcGust86Elem (DA := RealArith) 0 Titania stale_angles
     (frame_elements stale_frame)).[3] < 1.
Proof.
  assert (Hl : length (frame_elements stale_frame) = 6%nat) by reflexivity.
  split; [exact Hl|].
  exact (proj1 (elements_inside_unit_disc 0 Titania stale_angles
                  (frame_elements stale_frame) Hl)).
Defined.

(** The first two columns of the rotation are orthogonal. *)
Lemma GUST86toJ2000_orthonormal_witness :
  (0 < 3)%nat /\ (1 < 3)%nat /\
  Rabs (gram (transpose (Matrix3d GUST86toJ2000)) 0 1 - 0) <= 1e-18.
Proof.
  assert (H0 : (0 < 3)%nat) by lia. assert (H1 : (1 < 3)%nat) by lia.
  split; [exact H0|]. split; [exact H1|].
  exact (proj1 (GUST86toJ2000_orthonormal 0 1 H0 H1)).
Defined.

(** The mean longitude of Miranda at [t = 0]. *)
Lemma Miranda_secular_bias_witness :
  length (frame_elements zero_frame) = 6%nat /\
  (CalcGust86Elem (DA := RealArith) 0 Miranda zero_angles
     (frame_elements zero_frame)).[1]
  - Miranda_longitude_series (angle_loop (DA := RealArith) 0 zero_angles)
  = - 0.23805158.
Proof.
  assert (Hl : length (frame_elements zero_frame) = 6%nat) by reflexivity.
  split; [exact Hl|].
  exact (proj2 (proj2 (Miranda_secular_bias zero_angles
                         (frame_elements zero_frame) Hl))).
Defined.

End Analytic.

(** ** Which cells the two array-writing functions touch *)

Module Frames.
Import Dbl Gust86 Structural Orbital.
Section Generic.
Context {DA : DoubleArith}.
Local Open Scope double_scope.

Lemma six_inserts_frame (l : list double) (v0 v1 v2 v3 v4 v5 : double) (i : nat) :
  6 <= i ->
  (<[5 := v5]> (<[4 := v4]> (<[3 := v3]> (<[2 := v2]> (<[1 := v1]>
     (<[0 := v0]> l)))))) !! i = l !! i.
Proof.
  intros Hi. rewrite !list_lookup_insert_ne by lia. reflexivity.
Qed.

Lemma six_inserts_written (l : list double) (v0 v1 v2 v3 v4 v5 : double) :
  6 <= length l ->
  take 6 (<[5 := v5]> (<[4 := v4]> (<[3 := v3]> (<[2 := v2]> (<[1 := v1]>
     (<[0 := v0]> l)))))) = [v0; v1; v2; v3; v4; v5].
Proof.
  intros Hl.
  do 6 (destruct l as [|? l]; [cbn in Hl; lia|]). reflexivity.
Qed.

(** X1.  [CalcGust86Elem] writes exactly the first six cells of
    [elements]: for every array of at least six cells the result has the
    length of the array, every cell from index 6 on keeps its value, and the
    six cells written do not depend on what the array held before. *)
Theorem CalcGust86Elem_writes_six_cells (t : double) (body : Satellite) (a : Angles)
    (el el' : list double) :
  6 <= length el -> 6 <= length el' ->
  length (CalcGust86Elem t body a el) = length el /\
  (forall i, 6 <= i -> CalcGust86Elem t body a el !! i = el !! i) /\
  take 6 (CalcGust86Elem t body a el) = take 6 (CalcGust86Elem t body a el').
Proof.
  intros Hl Hl'. unfold CalcGust86Elem.
  destruct body;
    [ unfold CalcGust86Elem_Miranda | unfold CalcGust86Elem_Ariel
    | unfold CalcGust86Elem_Umbriel | unfold CalcGust86Elem_Titania
    | unfold CalcGust86Elem_Oberon ];
    cbv zeta;
    (split; [rewrite !length_insert; reflexivity|]);
    (split; [intros i Hi; apply six_inserts_frame, Hi|]);
    rewrite !six_inserts_written by assumption; reflexivity.
Qed.

Lemma rectangular_writes_six_cells (a n : double) (elem : list double) (Le : double)
    (xyz xyz' : list double) :
  6 <= length xyz -> 6 <= length xyz' ->
  length (rectangular a n elem Le xyz) = length xyz /\
  (forall i, 6 <= i -> rectangular a n elem Le xyz !! i = xyz !! i) /\
  take 6 (rectangular a n elem Le xyz) = take 6 (rectangular a n elem Le xyz').
Proof.
  intros Hl Hl'. unfold rectangular. cbv zeta.
  split; [rewrite !length_insert; reflexivity|].
  split; [intros i Hi; apply six_inserts_frame, Hi|].
  rewrite !six_inserts_written by assumption. reflexivity.
Qed.

(** X2.  When [EllipticToRectangularN] returns, it has written exactly the
    first six cells of [xyz]: the length is kept, every cell from index 6 on
    keeps its value, and on any other array of at least six cells the call
    returns as well, with the same six cells. *)
Theorem EllipticToRectangularN_writes_six_cells (fuel : nat) (mu : double)
    (elem : list double) (dt : double) (xyz xyz' out : list double) :
  6 <= length xyz -> 6 <= length xyz' ->
  EllipticToRectangularN fuel mu elem dt xyz = Returns out ->
  length out = length xyz /\
  (forall i, 6 <= i -> out !! i = xyz !! i) /\
  exists out', EllipticToRectangularN fuel mu elem dt xyz' = Returns out' /\
               take 6 out' = take 6 out.
Proof.
  intros Hl Hl'. unfold EllipticToRectangularN, EllipticToRectangular.
  destruct (kepler _ _ _ _) as [Le| |]; cbn; [|discriminate..].
  intros [= <-].
  destruct (rectangular_writes_six_cells
              (pow (mu / (elem.[0] * elem.[0])) (#1.0 / #3.0)) elem.[0] elem Le
              xyz xyz' Hl Hl') as (H1 & H2 & H3).
  split; [exact H1|]. split; [exact H2|].
  eexists. split; [reflexivity|]. symmetry. exact H3.
Qed.

(** X3.  The series of [k] and [q] are the series of [h] and [p] with sine
    in the place of cosine, term by term: exchanging [sin] and [cos] in
    [CalcGust86Elem] exchanges [elements[2]] with [elements[3]] and
    [elements[4]] with [elements[5]], for every satellite, every time and
    every arithmetic. *)
Theorem sine_and_cosine_series_pair (t : double) (body : Satellite) (a : Angles)
    (el : list double) :
  6 <= length el ->
  let e := CalcGust86Elem (DA := DA) t body a el in
  let e' := CalcGust86Elem (DA := swap_sin_cos DA) t body
              (mkAngles (DA := swap_sin_cos DA) (an a) (ae a) (ai a)) el in
  e' !! 2 = e !! 3 /\ e' !! 3 = e !! 2 /\ e' !! 4 = e !! 5 /\ e' !! 5 = e !! 4.
Proof.
  intros Hl e e'. subst e e'.
  do 6 (destruct el as [|? el]; [cbn in Hl; lia|]).
  destruct a as [an_ ae_ ai_].
  destruct body; repeat split; reflexivity.
Qed.

End Generic.
End Frames.

(** ** The Newton loop and its fuel *)

Module Loop.
Import Dbl Gust86 Structural.
Section Generic.
Context {DA : DoubleArith}.
Local Open Scope double_scope.

Lemma kepler_loop_returns_at (fuel j : nat) (L : double) (elem : list double)
    (Le : double) :
  j < fuel -> kepler_test j L elem Le = true ->
  exists F, kepler_loop fuel L elem Le = Returns F.
Proof.
  revert j Le. induction fuel as [|fuel IH]; intros j Le Hj Ht; [lia|].
  cbn [kepler_loop].
  change (fabs (kepler_dLe L elem Le) <=? #1e-14) with (kepler_test 0 L elem Le).
  destruct (kepler_test 0 L elem Le) eqn:H0; [eauto|].
  destruct j as [|j]; [congruence|].
  apply (IH j); [lia | exact Ht].
Qed.

Lemma kepler_loop_more_fuel (fuel fuel' : nat) (L : double) (elem : list double)
    (Le F : double) :
  fuel <= fuel' -> kepler_loop fuel L elem Le = Returns F ->
  kepler_loop fuel' L elem Le = Returns F.
Proof.
  intros Hf. rewrite !kepler_loop_returns_iff.
  intros (j & Hj & Hrest). exists j. split; [lia | exact Hrest].
Qed.

Lemma kepler_loop_last_correction (fuel : nat) (L : double) (elem : list double)
    (Le F : double) :
  kepler_loop fuel L elem Le = Returns F ->
  exists x, F = x + kepler_dLe L elem x /\
            (fabs (kepler_dLe L elem x) <=? #1e-14) = true.
Proof.
  rewrite kepler_loop_returns_iff. intros (j & _ & _ & Ht & ->).
  exists (kepler_iterate j L elem Le). split; [|exact Ht].
  rewrite !kepler_iterate_iter. reflexivity.
Qed.

End Generic.
End Loop.

(** ** Convergence of the Newton loop under exact real arithmetic *)

Module Convergence.
Import Reals Lra Qreals Dbl Gust86 Ideal Structural Analytic Orbital Loop.
Local Open Scope double_scope.
Local Open Scope R_scope.

(** *** Second-order bounds on sine and cosine *)

Lemma Rabs_le_between (x b : R) : Rabs x <= b -> - b <= x <= b.
Proof. unfold Rabs. destruct (Rcase_abs x); lra. Qed.

Lemma sin_abs_le (y : R) : Rabs (Rtrigo_def.sin y) <= Rabs y.
Proof.
  assert (Hpos : forall z, 0 <= z -> Rabs (Rtrigo_def.sin z) <= z).
  { intros z Hz. destruct (Rle_lt_dec z 1) as [Hz1 | Hz1].
    - destruct (Req_dec z 0) as [-> | Hz0].
      + rewrite sin_0, Rabs_R0. lra.
      + assert (0 < Rtrigo_def.sin z)
          by (apply sin_gt_0; [lra | pose proof PI2_1; lra]).
        rewrite Rabs_right by lra. pose proof (sin_lt_x z). lra.
    - pose proof (SIN_bound z). apply Rabs_le in H. lra. }
  destruct (Rle_lt_dec 0 y) as [Hy | Hy].
  - rewrite (Rabs_right y) by lra. apply Hpos, Hy.
  - rewrite (Rabs_left y) by lra.
    replace (Rtrigo_def.sin y) with (- Rtrigo_def.sin (- y))
      by (rewrite sin_neg; ring).
    rewrite Rabs_Ropp. apply Hpos. lra.
Qed.

Lemma cos_second_order (d : R) : Rabs (Rtrigo_def.cos d - 1) <= d * d / 2.
Proof.
  replace d with (2 * (d / 2)) at 1 by field.
  rewrite cos_2a_sin.
  pose proof (sin_abs_le (d / 2)) as H.
  set (s := Rtrigo_def.sin (d / 2)) in *.
  assert (Hs : s * s <= (d / 2) * (d / 2)).
  { apply Rsqr_le_abs_1 in H. exact H. }
  assert (0 <= s * s) by nra.
  apply Rabs_le. nra.
Qed.

Lemma sin_second_order (d : R) : Rabs d <= 1 -> Rabs (Rtrigo_def.sin d - d) <= d * d / 2.
Proof.
  assert (Hpos : forall z, 0 <= z <= 1 -> Rabs (Rtrigo_def.sin z - z) <= z * z / 2).
  { intros z [Hz0 Hz1].
    destruct (Req_dec z 0) as [-> | Hnz].
    { rewrite sin_0. replace (0 - 0) with 0 by ring. rewrite Rabs_R0. lra. }
    pose proof (sin_lt_x z ltac:(lra)) as Hub.
    pose proof (SIN z Hz0 ltac:(pose proof PI2_1; lra)) as [Hlb _].
    unfold sin_lb, sin_approx, sum_f_R0, sin_term in Hlb.
    cbn [Nat.mul Nat.add Factorial.fact] in Hlb.
    rewrite !INR_IZR_INZ in Hlb.
    cbn [Rpow_def.pow Z.of_nat Pos.of_succ_nat Pos.succ] in Hlb.
    rewrite Rabs_left1 by lra.
    set (u := z * z) in *.
    assert (Hu : 0 <= u <= 1) by (unfold u; nra).
    assert (H5 : 0 <= z * u * u)
      by (apply Rmult_le_pos; [apply Rmult_le_pos|]; lra).
    assert (H7 : z * u * u * u <= z * u * u) by nra.
    assert (H3 : z * u <= u) by nra.
    replace (z * (z * (z * (z * (z * (z * (z * 1))))))) with (z * u * u * u)
      in Hlb by (unfold u; ring).
    replace (z * (z * (z * (z * (z * 1))))) with (z * u * u) in Hlb
      by (unfold u; ring).
    replace (z * (z * (z * 1))) with (z * u) in Hlb by (unfold u; ring).
    repeat match type of Hlb with
           | context [Z.of_nat ?n] =>
               let v := eval vm_compute in (Z.of_nat n) in
               change (Z.of_nat n) with v in Hlb
           end.
    lra. }
  intros Hd. destruct (Rle_lt_dec 0 d) as [H0 | H0].
  - apply Hpos. rewrite Rabs_right in Hd by lra. lra.
  - rewrite Rabs_left in Hd by lra.
    replace (Rtrigo_def.sin d - d) with (- (Rtrigo_def.sin (- d) - - d))
      by (rewrite sin_neg; ring).
    rewrite Rabs_Ropp. replace (d * d / 2) with (- d * - d / 2) by field.
    apply Hpos. lra.
Qed.

Lemma sin_taylor (x d : R) :
  Rabs d <= 1 ->
  Rabs (Rtrigo_def.sin (x + d) - Rtrigo_def.sin x - d * Rtrigo_def.cos x) <= d * d.
Proof.
  intros Hd. rewrite sin_plus.
  pose proof (cos_second_order d) as Hc. pose proof (sin_second_order d Hd) as Hs.
  pose proof (SIN_bound x) as Bs. pose proof (COS_bound x) as Bc.
  apply Rabs_le_between in Hc. apply Rabs_le_between in Hs.
  set (sx := Rtrigo_def.sin x) in *. set (cx := Rtrigo_def.cos x) in *.
  set (A := Rtrigo_def.cos d - 1) in *. set (B := Rtrigo_def.sin d - d) in *.
  replace (sx * Rtrigo_def.cos d + cx * Rtrigo_def.sin d - sx - d * cx)
    with (sx * A + cx * B) by (unfold A, B; ring).
  clearbody sx cx A B. apply Rabs_le. assert (0 <= d * d) by nra. nra.
Qed.

Lemma cos_taylor (x d : R) :
  Rabs d <= 1 ->
  Rabs (Rtrigo_def.cos (x + d) - Rtrigo_def.cos x + d * Rtrigo_def.sin x) <= d * d.
Proof.
  intros Hd. rewrite cos_plus.
  pose proof (cos_second_order d) as Hc. pose proof (sin_second_order d Hd) as Hs.
  pose proof (SIN_bound x) as Bs. pose proof (COS_bound x) as Bc.
  apply Rabs_le_between in Hc. apply Rabs_le_between in Hs.
  set (sx := Rtrigo_def.sin x) in *. set (cx := Rtrigo_def.cos x) in *.
  set (A := Rtrigo_def.cos d - 1) in *. set (B := Rtrigo_def.sin d - d) in *.
  replace (cx * Rtrigo_def.cos d - sx * Rtrigo_def.sin d - cx + d * sx)
    with (cx * A - sx * B) by (unfold A, B; ring).
  clearbody sx cx A B. apply Rabs_le. assert (0 <= d * d) by nra. nra.
Qed.

(** *** One Newton correction *)

Lemma kepler_dLe_quotient (L : R) (elem : list double) (x : R) :
  kepler_dLe L elem x = kepler_residual L elem x / kepler_divisor elem x.
Proof.
  unfold kepler_dLe, kepler_residual, kepler_divisor. cbn. unlit. f_equal. lra.
Qed.

Lemma kepler_divisor_bounds (elem : list double) (x E : R) :
  Rabs elem.[2] + Rabs elem.[3] <= E ->
  1 - E <= kepler_divisor elem x <= 1 + E.
Proof.
  intros HE. unfold kepler_divisor.
  pose proof (SIN_bound x). pose proof (COS_bound x).
  set (h := elem.[2]) in *. set (k := elem.[3]) in *.
  set (s := Rtrigo_def.sin x) in *. set (c := Rtrigo_def.cos x) in *.
  clearbody h k s c. unfold Rabs in HE.
  destruct (Rcase_abs h), (Rcase_abs k); nra.
Qed.

Lemma kepler_residual_after_step (L : R) (elem : list double) (x E : R) :
  Rabs elem.[2] + Rabs elem.[3] <= E -> E < 1 ->
  Rabs (kepler_dLe L elem x) <= 1 ->
  Rabs (kepler_residual L elem (x + kepler_dLe L elem x))
  <= E * (kepler_dLe L elem x * kepler_dLe L elem x).
Proof.
  intros HE HE1 Hd. rewrite kepler_dLe_quotient in *.
  pose proof (kepler_divisor_bounds elem x E HE) as Hdiv.
  set (d := kepler_residual L elem x / kepler_divisor elem x) in *.
  assert (Hres : kepler_residual L elem x = d * kepler_divisor elem x)
    by (unfold d; field; lra).
  pose proof (sin_taylor x d Hd) as Hs. pose proof (cos_taylor x d Hd) as Hc.
  apply Rabs_le_between in Hs. apply Rabs_le_between in Hc.
  unfold kepler_residual, kepler_divisor in *.
  set (h := elem.[2]) in *. set (k := elem.[3]) in *.
  set (S := Rtrigo_def.sin (x + d) - Rtrigo_def.sin x - d * Rtrigo_def.cos x) in *.
  set (C := Rtrigo_def.cos (x + d) - Rtrigo_def.cos x + d * Rtrigo_def.sin x) in *.
  replace (L - (x + d) + h * Rtrigo_def.sin (x + d) - k * Rtrigo_def.cos (x + d))
    with (h * S - k * C) by (unfold S, C; lra).
  assert (H0 : 0 <= d * d) by nra.
  apply Rabs_le in Hs. apply Rabs_le in Hc.
  clearbody h k S C. clear Hres Hdiv.
  unfold Rminus. eapply Rle_trans; [apply Rabs_triang|].
  rewrite Rabs_Ropp, !Rabs_mult.
  pose proof (Rabs_pos h). pose proof (Rabs_pos k).
  pose proof (Rabs_pos S). pose proof (Rabs_pos C).
  assert (Rabs h * Rabs S <= Rabs h * (d * d)) by (apply Rmult_le_compat_l; lra).
  assert (Rabs k * Rabs C <= Rabs k * (d * d)) by (apply Rmult_le_compat_l; lra).
  assert ((Rabs h + Rabs k) * (d * d) <= E * (d * d))
    by (apply Rmult_le_compat_r; lra).
  lra.
Qed.

Lemma mul_unit_bound (h s : R) : -1 <= s <= 1 -> - Rabs h <= h * s <= Rabs h.
Proof. intros Hs. unfold Rabs. destruct (Rcase_abs h); nra. Qed.

Lemma square_le_of_abs (d b : R) : Rabs d <= b -> d * d <= b * b.
Proof.
  intros H. apply Rabs_le_between in H. assert (0 <= b) by lra. nra.
Qed.

Lemma newton_contracts (L : R) (elem : list double) (x E b : R) :
  Rabs elem.[2] + Rabs elem.[3] <= E -> E < 1 -> b <= 1 ->
  Rabs (kepler_dLe L elem x) <= b ->
  Rabs (kepler_dLe L elem (x + kepler_dLe L elem x)%R) <= E / (1 - E) * (b * b).
Proof.
  intros HE HE1 Hb Hd.
  pose proof (kepler_residual_after_step L elem x E HE HE1 ltac:(lra)) as Hres.
  pose proof (square_le_of_abs _ _ Hd) as Hsq.
  set (d := kepler_dLe (DA := RealArith) L elem x) in *.
  rewrite (kepler_dLe_quotient L elem (x + d)).
  pose proof (kepler_divisor_bounds elem (x + d) E HE) as Hdiv.
  set (r := kepler_residual L elem (x + d)) in *.
  set (v := kepler_divisor elem (x + d)) in *.
  assert (H0 : 0 <= E).
  { pose proof (Rabs_pos elem.[2]). pose proof (Rabs_pos elem.[3]). lra. }
  unfold Rdiv. rewrite Rabs_mult, Rabs_inv, (Rabs_right v) by lra.
  apply (Rmult_le_reg_r v); [lra|].
  rewrite Rmult_assoc, Rinv_l, Rmult_1_r by lra.
  assert (E * (d * d) <= E * (b * b)) by (apply Rmult_le_compat_l; lra).
  assert (Hq : E * / (1 - E) * (b * b) * (1 - E) = E * (b * b)) by (field; lra).
  assert (0 <= E * / (1 - E) * (b * b)).
  { apply Rmult_le_pos; [apply Rmult_le_pos; [lra|]|nra].
    apply Rlt_le, Rinv_0_lt_compat. lra. }
  nra.
Qed.

Lemma newton_first_correction (L : R) (elem : list double) (E : R) :
  Rabs elem.[2] + Rabs elem.[3] <= E -> E < 1 ->
  Rabs (kepler_dLe L elem (kepler_seed L elem)) <= 2 * E / (1 - E).
Proof.
  intros HE HE1.
  rewrite kepler_dLe_quotient.
  pose proof (kepler_divisor_bounds elem (kepler_seed L elem) E HE) as Hdiv.
  assert (Hres : Rabs (kepler_residual L elem (kepler_seed L elem)) <= 2 * E).
  { unfold kepler_residual, kepler_seed.
    cbn [dadd dsub dmul sin cos RealArith]. bound_trig.
    set (h := elem.[2]) in *. set (k := elem.[3]) in *. clearbody h k.
    repeat match goal with
           | H : -1 <= ?s <= 1 |- _ =>
               pose proof (mul_unit_bound h s H); pose proof (mul_unit_bound k s H);
               clear H
           end.
    apply Rabs_le. lra. }
  set (r := kepler_residual L elem _) in *.
  set (v := kepler_divisor elem _) in *.
  assert (H0 : 0 <= E).
  { pose proof (Rabs_pos elem.[2]). pose proof (Rabs_pos elem.[3]). lra. }
  unfold Rdiv. rewrite Rabs_mult, Rabs_inv, (Rabs_right v) by lra.
  apply (Rmult_le_reg_r v); [lra|].
  rewrite Rmult_assoc, Rinv_l, Rmult_1_r by lra.
  assert (Hq : 2 * E * / (1 - E) * (1 - E) = 2 * E) by (field; lra).
  assert (0 <= 2 * E * / (1 - E)).
  { apply Rmult_le_pos; [lra|]. apply Rlt_le, Rinv_0_lt_compat. lra. }
  nra.
Qed.

(** Five turns: the corrections are bounded by [2/7], [12/1000],
    [21/1000000], [7e-11] and [1e-14] in turn. *)
Lemma kepler_five_turns (n : R) (elem : list double) (dt : R) :
  Rabs elem.[2] + Rabs elem.[3] <= 1 / 8 ->
  exists F, kepler 5 n elem dt = Returns F.
Proof.
  intros HE. unfold kepler.
  set (L := kepler_L (DA := RealArith) n elem dt).
  set (x0 := kepler_seed (DA := RealArith) L elem).
  assert (H0 : Rabs (kepler_dLe L elem x0) <= 2 / 7).
  { eapply Rle_trans;
      [apply (newton_first_correction L elem (1 / 8) HE); lra | lra]. }
  set (x1 := x0 + kepler_dLe (DA := RealArith) L elem x0).
  assert (H1 : Rabs (kepler_dLe L elem x1) <= 12 / 1000).
  { eapply Rle_trans;
      [apply (newton_contracts L elem x0 (1 / 8) (2 / 7) HE); [lra | lra | exact H0]
      | lra]. }
  set (x2 := x1 + kepler_dLe (DA := RealArith) L elem x1).
  assert (H2 : Rabs (kepler_dLe L elem x2) <= 21 / 1000000).
  { eapply Rle_trans;
      [apply (newton_contracts L elem x1 (1 / 8) (12 / 1000) HE);
         [lra | lra | exact H1]
      | lra]. }
  set (x3 := x2 + kepler_dLe (DA := RealArith) L elem x2).
  assert (H3 : Rabs (kepler_dLe L elem x3) <= 7e-11).
  { eapply Rle_trans;
      [apply (newton_contracts L elem x2 (1 / 8) (21 / 1000000) HE);
         [lra | lra | exact H2]
      | lra]. }
  set (x4 := x3 + kepler_dLe (DA := RealArith) L elem x3).
  assert (H4 : Rabs (kepler_dLe L elem x4) <= 1e-14).
  { eapply Rle_trans;
      [apply (newton_contracts L elem x3 (1 / 8) 7e-11 HE);
         [lra | lra | exact H3]
      | lra]. }
  apply (kepler_loop_returns_at 5 4); [lia|].
  change (kepler_test (DA := RealArith) 4 L elem x0)
    with (Rleb (Rabs (kepler_dLe (DA := RealArith) L elem x4)) (Q2R 1e-14)).
  apply Rleb_true. unlit. lra.
Qed.

End Convergence.

(** ** The state vector as a point of a Keplerian orbit *)

Module Conic.
Import Reals Lra Qreals Dbl Gust86 Ideal Structural Analytic Orbital.
Local Open Scope double_scope.
Local Open Scope R_scope.

Lemma kepler_divisor_positive (elem : list double) (F : R) :
  elem.[2] * elem.[2] + elem.[3] * elem.[3] < 1 -> 0 < kepler_divisor elem F.
Proof.
  intros He. unfold kepler_divisor.
  pose proof (sin2_cos2 F) as Hsc. unfold Rsqr in Hsc.
  set (c := Rtrigo_def.cos F) in *. set (s := Rtrigo_def.sin F) in *.
  set (h := elem.[2]) in *. set (k := elem.[3]) in *. clearbody c s h k.
  pose proof (Rle_0_sqr (h - c)) as H1. pose proof (Rle_0_sqr (k - s)) as H2.
  unfold Rsqr in H1, H2. nra.
Qed.

Lemma rotation_preserves_dot (x y u v p q w : R) :
  w * w = 1 - p * p - q * q ->
  let rtp := 1 - q * q - q * q in
  let rtq := 1 - p * p - p * p in
  let rdg := 2 * q * p in
  (x * rtp + y * rdg) * (u * rtp + v * rdg)
  + (x * rdg + y * rtq) * (u * rdg + v * rtq)
  + ((- x * q + y * p) * (2 * w)) * ((- u * q + v * p) * (2 * w))
  = x * u + y * v.
Proof.
  intros Hw rtp rtq rdg. subst rtp rtq rdg.
  replace ((- x * q + y * p) * (2 * w) * ((- u * q + v * p) * (2 * w)))
    with (4 * (- x * q + y * p) * (- u * q + v * p) * (w * w)) by ring.
  rewrite Hw. ring.
Qed.

Lemma psi_identity (h k phi psi : R) :
  phi * phi = 1 - h * h - k * k -> psi * (1 + phi) = 1 ->
  psi * psi * (h * h + k * k) - 2 * psi = -1.
Proof.
  intros Hphi Hpsi.
  replace (h * h + k * k) with (1 - phi * phi) by lra.
  replace (psi * psi * (1 - phi * phi) - 2 * psi)
    with ((psi * (1 + phi) - 1) * (psi * (1 - phi) - 1) - 1) by ring.
  rewrite Hpsi. ring.
Qed.

Lemma planar_radius (a h k c s phi psi : R) :
  s * s + c * c = 1 ->
  phi * phi = 1 - h * h - k * k -> psi * (1 + phi) = 1 ->
  let dlf := - h * s + k * c in
  let x1 := a * (c - h - psi * dlf * k) in
  let y1 := a * (s - k + psi * dlf * h) in
  x1 * x1 + y1 * y1 = (a * (1 - h * c - k * s)) * (a * (1 - h * c - k * s)).
Proof.
  intros Hsc Hphi Hpsi dlf x1 y1.
  pose proof (psi_identity h k phi psi Hphi Hpsi) as K.
  subst x1 y1.
  replace (a * (c - h - psi * dlf * k) * (a * (c - h - psi * dlf * k))
           + a * (s - k + psi * dlf * h) * (a * (s - k + psi * dlf * h)))
    with (a * a * ((s * s + c * c) - 2 * (h * c + k * s) + (h * h + k * k)
                   + dlf * dlf * (psi * psi * (h * h + k * k) - 2 * psi)))
    by (unfold dlf; ring).
  assert (He : h * h + k * k = (h * c + k * s) * (h * c + k * s) + dlf * dlf).
  { transitivity ((h * h + k * k) * (s * s + c * c));
      [rewrite Hsc; ring | unfold dlf; ring]. }
  rewrite K, Hsc, He. ring.
Qed.

Lemma planar_speed (hs h k c s phi psi : R) :
  s * s + c * c = 1 ->
  phi * phi = 1 - h * h - k * k -> psi * (1 + phi) = 1 ->
  let rho := - h * c - k * s in
  let vx1 := hs * (- s - psi * rho * k) in
  let vy1 := hs * (c + psi * rho * h) in
  vx1 * vx1 + vy1 * vy1 = hs * hs * (1 - rho * rho).
Proof.
  intros Hsc Hphi Hpsi rho vx1 vy1.
  pose proof (psi_identity h k phi psi Hphi Hpsi) as K.
  subst vx1 vy1.
  replace (hs * (- s - psi * rho * k) * (hs * (- s - psi * rho * k))
           + hs * (c + psi * rho * h) * (hs * (c + psi * rho * h)))
    with (hs * hs * ((s * s + c * c)
                     + rho * rho * (psi * psi * (h * h + k * k) - 2 * psi)))
    by (unfold rho; ring).
  rewrite K, Hsc. ring.
Qed.

Lemma planar_areal_velocity (a hs h k c s phi psi : R) :
  s * s + c * c = 1 ->
  phi * phi = 1 - h * h - k * k -> psi * (1 + phi) = 1 ->
  let dlf := - h * s + k * c in
  let rho := - h * c - k * s in
  let x1 := a * (c - h - psi * dlf * k) in
  let y1 := a * (s - k + psi * dlf * h) in
  let vx1 := hs * (- s - psi * rho * k) in
  let vy1 := hs * (c + psi * rho * h) in
  x1 * vy1 - y1 * vx1 = a * hs * (1 + rho) * phi.
Proof.
  intros Hsc Hphi Hpsi dlf rho x1 y1 vx1 vy1.
  assert (He : h * h + k * k = rho * rho + dlf * dlf).
  { transitivity ((h * h + k * k) * (s * s + c * c));
      [rewrite Hsc; ring | unfold rho, dlf; ring]. }
  assert (Hphi' : phi = 1 - psi * (h * h + k * k)).
  { replace (h * h + k * k) with (1 - phi * phi) by lra.
    replace (1 - psi * (1 - phi * phi))
      with (1 - psi * (1 + phi) * (1 - phi)) by ring.
    rewrite Hpsi. ring. }
  subst x1 y1 vx1 vy1.
  replace (a * (c - h - psi * dlf * k) * (hs * (c + psi * rho * h))
           - a * (s - k + psi * dlf * h) * (hs * (- s - psi * rho * k)))
    with (a * hs * ((s * s + c * c) + rho - psi * (rho * rho + dlf * dlf)
                    - psi * rho * (h * h + k * k)))
    by (unfold rho, dlf; ring).
  rewrite <- He, Hsc. rewrite Hphi'. ring.
Qed.

Lemma normal_vector (x y u v p q w : R) :
  let rtp := 1 - q * q - q * q in
  let rtq := 1 - p * p - p * p in
  let rdg := 2 * q * p in
  let r0 := x * rtp + y * rdg in
  let r1 := x * rdg + y * rtq in
  let r2 := (- x * q + y * p) * (2 * w) in
  let v0 := u * rtp + v * rdg in
  let v1 := u * rdg + v * rtq in
  let v2 := (- u * q + v * p) * (2 * w) in
  r1 * v2 - r2 * v1 = (x * v - y * u) * (q * (2 * w)) /\
  r2 * v0 - r0 * v2 = (x * v - y * u) * (- p * (2 * w)) /\
  r0 * v1 - r1 * v0 = (x * v - y * u) * (1 - 2 * (p * p) - 2 * (q * q)).
Proof. cbv zeta. repeat split; ring. Qed.

(** Replaces the lookups, trigonometric values and square roots of the
    converter by variables that satisfy their defining equations. *)
Ltac conic_setup elem F :=
  set (h := elem.[2]) in *; set (k := elem.[3]) in *;
  set (p := elem.[4]) in *; set (q := elem.[5]) in *;
  cbn [lookup_total list_lookup_total insert list_insert dadd dsub dmul ddiv dneg
       sin cos sqrt lit RealArith];
  unlit_red; replace (1 / 1) with 1 by lra; replace (2 / 1) with 2 by lra;
  pose proof (sin2_cos2 F) as Hsc; unfold Rsqr in Hsc;
  assert (Hphi : R_sqrt.sqrt (1 - h * h - k * k) * R_sqrt.sqrt (1 - h * h - k * k)
                 = 1 - h * h - k * k)
    by (apply sqrt_sqrt; lra);
  pose proof (sqrt_pos (1 - h * h - k * k)) as Hphi0;
  set (phi := R_sqrt.sqrt (1 - h * h - k * k)) in *;
  assert (Hpsi : 1 / (1 + phi) * (1 + phi) = 1) by (field; lra);
  set (psi := 1 / (1 + phi)) in *;
  set (w := R_sqrt.sqrt (1 - p * p - q * q)) in *;
  set (c := Rtrigo_def.cos F) in *; set (s := Rtrigo_def.sin F) in *.

(** The distance is [a (1 - h cos F - k sin F)]. *)
Lemma rectangular_radius (a n : R) (elem : list double) (F : R) (xyz : list double) :
  length xyz = 6%nat ->
  elem.[2] * elem.[2] + elem.[3] * elem.[3] <= 1 ->
  elem.[4] * elem.[4] + elem.[5] * elem.[5] <= 1 ->
  let out := rectangular a n elem F xyz in
  out.[0] * out.[0] + out.[1] * out.[1] + out.[2] * out.[2]
  = (a * kepler_divisor elem F) * (a * kepler_divisor elem F).
Proof.
  intros Hl He Hi out. subst out.
  apply length_6_inv in Hl as (? & ? & ? & ? & ? & ? & ->).
  unfold rectangular, kepler_divisor.
  conic_setup elem F.
  assert (Hw : w * w = 1 - p * p - q * q) by (apply sqrt_sqrt; lra).
  pose proof (planar_radius a h k c s phi psi Hsc Hphi Hpsi) as Hr.
  cbv zeta in Hr. rewrite <- Hr.
  set (X1 := a * (c - h - psi * (- h * s + k * c) * k)).
  set (Y1 := a * (s - k + psi * (- h * s + k * c) * h)).
  pose proof (rotation_preserves_dot X1 Y1 X1 Y1 p q w Hw) as Hrot.
  cbv zeta in Hrot. rewrite <- Hrot. ring.
Qed.

(** The speed: [v^2 = (a n)^2 (2 - D) / D] with [D] the divisor. *)
Lemma rectangular_speed (a n : R) (elem : list double) (F : R) (xyz : list double) :
  length xyz = 6%nat ->
  elem.[2] * elem.[2] + elem.[3] * elem.[3] < 1 ->
  elem.[4] * elem.[4] + elem.[5] * elem.[5] <= 1 ->
  let out := rectangular a n elem F xyz in
  out.[3] * out.[3] + out.[4] * out.[4] + out.[5] * out.[5]
  = (a * n) * (a * n) * (2 - kepler_divisor elem F) / kepler_divisor elem F.
Proof.
  intros Hl He Hi out. subst out.
  pose proof (kepler_divisor_positive elem F He) as HD.
  apply length_6_inv in Hl as (? & ? & ? & ? & ? & ? & ->).
  unfold rectangular, kepler_divisor in *.
  conic_setup elem F.
  assert (Hw : w * w = 1 - p * p - q * q) by (apply sqrt_sqrt; lra).
  set (rho := - h * c - k * s) in *.
  assert (Hrho : 1 + rho = 1 - h * c - k * s) by (unfold rho; ring).
  set (HS := a * n / (1 + rho)).
  assert (Hhs : HS * (1 + rho) = a * n) by (unfold HS; field; lra).
  set (VX1 := HS * (- s - psi * rho * k)).
  set (VY1 := HS * (c + psi * rho * h)).
  pose proof (rotation_preserves_dot VX1 VY1 VX1 VY1 p q w Hw) as Hrot.
  cbv zeta in Hrot.
  transitivity (VX1 * VX1 + VY1 * VY1); [rewrite <- Hrot; ring|].
  pose proof (planar_speed HS h k c s phi psi Hsc Hphi Hpsi) as Hv.
  cbv zeta in Hv. fold rho in Hv. fold VX1 VY1 in Hv. rewrite Hv.
  rewrite <- Hhs, <- Hrho. field. lra.
Qed.

(** X4.  Angular momentum.  For every eccentricity below one and every
    value [F] of the eccentric longitude, the position [r] and velocity [v]
    written by the straight-line part of [EllipticToRectangular] satisfy
    [r x v = n a^2 sqrt(1 - h^2 - k^2) (2 q w, - 2 p w, 1 - 2 p^2 - 2 q^2)]
    with [w = sqrt(1 - p^2 - q^2)]: the angular momentum does not depend on
    [F], so it is the same at every point of the orbit. *)
Theorem angular_momentum (a n : R) (elem : list double) (F : R) (xyz : list double) :
  length xyz = 6%nat ->
  elem.[2] * elem.[2] + elem.[3] * elem.[3] < 1 ->
  let out := rectangular a n elem F xyz in
  let J := n * (a * a) * R_sqrt.sqrt (1 - elem.[2] * elem.[2] - elem.[3] * elem.[3]) in
  let dwho := 2 * R_sqrt.sqrt (1 - elem.[4] * elem.[4] - elem.[5] * elem.[5]) in
  out.[1] * out.[5] - out.[2] * out.[4] = J * (elem.[5] * dwho) /\
  out.[2] * out.[3] - out.[0] * out.[5] = J * (- elem.[4] * dwho) /\
  out.[0] * out.[4] - out.[1] * out.[3]
  = J * (1 - 2 * (elem.[4] * elem.[4]) - 2 * (elem.[5] * elem.[5])).
Proof.
  intros Hl He out J dwho. subst out J dwho.
  pose proof (kepler_divisor_positive elem F He) as HD.
  apply length_6_inv in Hl as (? & ? & ? & ? & ? & ? & ->).
  unfold rectangular, kepler_divisor in *.
  conic_setup elem F.
  set (rho := - h * c - k * s) in *.
  assert (Hrho : 1 + rho = 1 - h * c - k * s) by (unfold rho; ring).
  set (HS := a * n / (1 + rho)).
  assert (Hhs : HS * (1 + rho) = a * n) by (unfold HS; field; lra).
  set (X1 := a * (c - h - psi * (- h * s + k * c) * k)).
  set (Y1 := a * (s - k + psi * (- h * s + k * c) * h)).
  set (VX1 := HS * (- s - psi * rho * k)).
  set (VY1 := HS * (c + psi * rho * h)).
  pose proof (planar_areal_velocity a HS h k c s phi psi Hsc Hphi Hpsi) as HJ.
  cbv zeta in HJ. fold rho in HJ. fold X1 Y1 VX1 VY1 in HJ.
  assert (HJ' : X1 * VY1 - Y1 * VX1 = n * (a * a) * phi)
    by (rewrite HJ; replace (a * HS * (1 + rho) * phi)
          with (a * (HS * (1 + rho)) * phi) by ring; rewrite Hhs; ring).
  pose proof (normal_vector X1 Y1 VX1 VY1 p q w) as (N0 & N1 & N2).
  cbv zeta in N0, N1, N2. rewrite HJ' in N0, N1, N2.
  repeat split.
  - rewrite <- N0. ring.
  - rewrite <- N1. ring.
  - rewrite <- N2. ring.
Qed.

End Conic.

(** ** The element series, the solver and the facade together *)

Module Facade.
Import Reals Lra Qreals Dbl Gust86 Ideal Structural Analytic Orbital Loop Convergence Conic.
Local Open Scope double_scope.
Local Open Scope R_scope.

(** *** Sharper bounds on the elements *)

Lemma eccentricity_tight (t : double) (body : Satellite) (a : Angles)
    (el : list double) :
  length el = 6%nat ->
  let e := CalcGust86Elem t body a el in
  (- (6 / 1000) <= e.[2] <= 6 / 1000) /\ (- (6 / 1000) <= e.[3] <= 6 / 1000).
Proof.
  intros Hl e. subst e. unfold CalcGust86Elem.
  set (A := angle_loop t a). clearbody A.
  apply length_6_inv in Hl as (? & ? & ? & ? & ? & ? & ->).
  destruct body; split; cbn; bound_trig; unlit; lra.
Qed.

(** X5.  For every satellite, every time and every content of the angle
    arrays, the mean motion [elements[0]] differs from the table frequency
    [fqn[body]] by at most [0.002] radians per day, and is above [0.46]: it
    is never zero. *)
Theorem mean_motion_near_table_frequency (t : double) (body : Satellite)
    (a : Angles) (el : list double) :
  length el = 6%nat ->
  let n := (CalcGust86Elem t body a el).[0] in
  Rabs (n - fqn.[satIndex body]) <= 2 / 1000 /\ 46 / 100 < n.
Proof.
  intros Hl n. subst n. unfold CalcGust86Elem.
  set (A := angle_loop t a). clearbody A.
  apply length_6_inv in Hl as (? & ? & ? & ? & ? & ? & ->).
  destruct body; (split; [apply Rabs_le|]); cbn; bound_trig; unlit; lra.
Qed.

(** X6.  For every satellite and every time [t], the mean longitude
    [elements[1]] (which [CalcGust86Elem] does not reduce modulo a turn)
    differs from the linear phase [fqn[body] * t + phn[body]] by at most
    [0.03 + 1e-9 |t|] radians. *)
Theorem mean_longitude_tracks_phase (t : double) (body : Satellite)
    (a : Angles) (el : list double) :
  length el = 6%nat ->
  Rabs ((CalcGust86Elem t body a el).[1]
        - (fqn.[satIndex body] * t + phn.[satIndex body]))
  <= 3 / 100 + 1e-9 * Rabs t.
Proof.
  intros Hl. unfold CalcGust86Elem.
  set (A := angle_loop t a). clearbody A.
  apply length_6_inv in Hl as (? & ? & ? & ? & ? & ? & ->).
  set (eps := 1e-9).
  destruct body; apply Rabs_le; cbn; bound_trig; unlit; subst eps;
    unfold Rabs; destruct (Rcase_abs t); lra.
Qed.

(** *** The solution of Kepler's equation *)

(** X7.  For every element vector with [|h| + |k| < 1]: when the solver
    returns [F], then [F] satisfies the equation
    [F = L' + h sin F - k cos F], where
    [L' = fmod(elem[1] + n dt, 2 M_PI)], up to [1e-14], the tolerance of the
    stopping test of the loop. *)
Theorem kepler_solution_residual (fuel : nat) (n : R) (elem : list double)
    (dt F : R) :
  Rabs elem.[2] + Rabs elem.[3] < 1 ->
  kepler fuel n elem dt = Returns F ->
  Rabs (kepler_L n elem dt - F + elem.[2] * Rtrigo_def.sin F
        - elem.[3] * Rtrigo_def.cos F) <= 1e-14.
Proof.
  intros HE Hret.
  change (Rabs (kepler_residual (kepler_L n elem dt) elem F) <= 1e-14).
  unfold kepler in Hret.
  apply (kepler_loop_last_correction (DA := RealArith)) in Hret as (x & -> & Ht).
  set (L := kepler_L (DA := RealArith) n elem dt) in *.
  apply Rleb_true in Ht. cbn [lit RealArith fabs] in Ht.
  assert (Hd : Rabs (kepler_dLe L elem x) <= 1e-14) by (revert Ht; unlit; lra).
  pose proof (kepler_residual_after_step L elem x _ (Rle_refl _) HE
                ltac:(lra)) as Hres.
  pose proof (square_le_of_abs _ _ Hd) as Hsq.
  assert (HE0 : 0 <= Rabs elem.[2] + Rabs elem.[3]).
  { pose proof (Rabs_pos elem.[2]). pose proof (Rabs_pos elem.[3]). lra. }
  set (E := Rabs elem.[2] + Rabs elem.[3]) in *.
  set (d := kepler_dLe (DA := RealArith) L elem x) in *.
  change (x + d)%D with (x + d)%R.
  assert (E * (d * d) <= 1 * (1e-14 * 1e-14)).
  { apply Rmult_le_compat; [lra | nra | lra | lra]. }
  lra.
Qed.

(** X8.  Kepler convergence.  For every element vector with
    [|h| + |k| <= 1/8], every mean motion and every time offset, the
    Newton loop leaves within five turns: it returns the same value for
    every number of turns allowed from five on. *)
Theorem kepler_returns_within_five_turns (fuel : nat) (n : R)
    (elem : list double) (dt : R) :
  Rabs elem.[2] + Rabs elem.[3] <= 1 / 8 -> (5 <= fuel)%nat ->
  exists F, kepler fuel n elem dt = Returns F /\
            kepler 5 n elem dt = Returns F.
Proof.
  intros HE Hfuel. destruct (kepler_five_turns n elem dt HE) as [F HF].
  exists F. split; [|exact HF].
  unfold kepler in *.
  exact (kepler_loop_more_fuel (DA := RealArith) 5 fuel _ _ _ _ Hfuel HF).
Qed.

(** *** The facade *)

Lemma EllipticToRectangularN_returns_inv (fuel : nat) (mu : R) (elem : list double)
    (dt : R) (xyz out : list double) :
  EllipticToRectangularN fuel mu elem dt xyz = Returns out ->
  exists F, kepler fuel elem.[0] elem dt = Returns F /\
    out = rectangular (Rpower (mu / (elem.[0] * elem.[0])) (1 / 3)) elem.[0]
                      elem F xyz.
Proof.
  unfold EllipticToRectangularN, EllipticToRectangular.
  destruct (kepler fuel _ elem dt) as [F| |]; cbn [mbind outcome_bind mret outcome_ret];
    [|discriminate..].
  intros [= <-]. exists F. split; [reflexivity|].
  cbn [pow ddiv dmul lit RealArith]. unlit_red.
  replace (1 / 1 / (3 / 1)) with (1 / 3) by lra. reflexivity.
Qed.

Lemma cube_root_third_law (mu n : R) :
  0 < mu -> n <> 0 ->
  let a := Rpower (mu / (n * n)) (1 / 3) in
  0 < a /\ a * a * a * (n * n) = mu.
Proof.
  intros Hmu Hn a.
  assert (Hx : 0 < mu / (n * n)).
  { apply Rdiv_lt_0_compat; [exact Hmu|]. nra. }
  split; [apply exp_pos|].
  assert (Hcube : a * a * a = mu / (n * n)).
  { replace (a * a * a) with (a ^ 3) by ring.
    rewrite <- (Rpower_pow 3 a) by apply exp_pos.
    unfold a. rewrite Rpower_mult.
    replace (1 / 3 * INR 3) with 1 by (simpl; field).
    apply Rpower_1, Hx. }
  rewrite Hcube. field. exact Hn.
Qed.

Section WithHeaders.
Context {HD : Headers}.

(** X9.  [state] always returns.  For every satellite, every time and every
    content of the automatic arrays, five turns of the Newton loop are
    enough for [state] to return a state vector, under every interpretation
    of the header constants. *)
Theorem state_returns (fuel : nat) (this : Gust86Orbit) (tdbSec : R) (fr : Frame) :
  frame_sized fr -> (5 <= fuel)%nat ->
  exists sv, state fuel this tdbSec fr = Returns sv.
Proof.
  intros (Hel & Hx & Ha) Hfuel. unfold state.
  rewrite index_gust86_rmu. cbn [mbind outcome_bind mret outcome_ret].
  set (e := CalcGust86Elem _ _ _ _).
  match goal with
  | e := CalcGust86Elem ?t ?b ?a ?el |- _ =>
      destruct (eccentricity_tight t b a el Hel) as [H2 H3]
  end.
  cbv zeta in H2, H3. fold e in H2, H3.
  assert (HE : Rabs e.[2] + Rabs e.[3] <= 1 / 8).
  { apply Rabs_le in H2. apply Rabs_le in H3. lra. }
  destruct (kepler_five_turns e.[0] e (@lit RealArith 0.0%Q) HE) as [F HF].
  assert (Hk : kepler fuel e.[0] e (@lit RealArith 0.0%Q) = Returns F)
    by (unfold kepler in *;
        exact (kepler_loop_more_fuel (DA := RealArith) 5 fuel _ _ _ _ Hfuel HF)).
  unfold EllipticToRectangularN, EllipticToRectangular. cbv zeta.
  rewrite Hk.
  cbn [mbind outcome_bind mret outcome_ret]. eauto.
Qed.

End WithHeaders.

(** X10.  Vis-viva.  Every state that [EllipticToRectangularN] returns for a
    positive gravitational parameter, a non-zero mean motion, an
    eccentricity below one and [p^2 + q^2 <= 1] has
    [v^2 = mu (2 / r - 1 / a)], where [a > 0] is the semi-major axis with
    [a^3 n^2 = mu] and [r = a (1 - h cos F - k sin F) > 0] is the distance,
    [F] being the solution the Newton loop returned. *)
Theorem vis_viva (fuel : nat) (mu : R) (elem : list double) (dt : R)
    (xyz out : list double) :
  length xyz = 6%nat -> 0 < mu -> elem.[0] <> 0 ->
  elem.[2] * elem.[2] + elem.[3] * elem.[3] < 1 ->
  elem.[4] * elem.[4] + elem.[5] * elem.[5] <= 1 ->
  EllipticToRectangularN fuel mu elem dt xyz = Returns out ->
  exists a F,
    kepler fuel elem.[0] elem dt = Returns F /\
    0 < a /\ a * a * a * (elem.[0] * elem.[0]) = mu /\
    0 < a * kepler_divisor elem F /\
    out.[0] * out.[0] + out.[1] * out.[1] + out.[2] * out.[2]
    = (a * kepler_divisor elem F) * (a * kepler_divisor elem F) /\
    out.[3] * out.[3] + out.[4] * out.[4] + out.[5] * out.[5]
    = mu * (2 / (a * kepler_divisor elem F) - 1 / a).
Proof.
  intros Hl Hmu Hn He Hi Hret.
  apply EllipticToRectangularN_returns_inv in Hret as (F & HF & ->).
  destruct (cube_root_third_law mu elem.[0] Hmu Hn) as [Ha Hlaw].
  cbv zeta in Ha, Hlaw.
  set (a := Rpower (mu / (elem.[0] * elem.[0])) (1 / 3)) in *.
  pose proof (kepler_divisor_positive elem F He) as HD.
  exists a, F. split; [exact HF|]. split; [exact Ha|]. split; [exact Hlaw|].
  split; [apply Rmult_lt_0_compat; assumption|]. split.
  - apply rectangular_radius; [exact Hl | lra | exact Hi].
  - rewrite (rectangular_speed a elem.[0] elem F xyz Hl He Hi).
    rewrite <- Hlaw. field. lra.
Qed.

(** X11.  Distance.  For every satellite, every time and every positive
    gravitational parameter [mu], the converter returns (five turns
    suffice) a position whose distance from the planet lies within 1.2
    percent of the semi-major axis [a = (mu / n^2)^(1/3)]. *)
Theorem distance_within_bounds (fuel : nat) (mu t dt : R) (body : Satellite)
    (a : Angles) (el xyz : list double) :
  length el = 6%nat -> length xyz = 6%nat -> (5 <= fuel)%nat -> 0 < mu ->
  let e := CalcGust86Elem t body a el in
  let sma := Rpower (mu / (e.[0] * e.[0])) (1 / 3) in
  exists out,
    EllipticToRectangularN fuel mu e dt xyz = Returns out /\
    (988 / 1000 * sma) * (988 / 1000 * sma)
    <= out.[0] * out.[0] + out.[1] * out.[1] + out.[2] * out.[2]
    <= (1012 / 1000 * sma) * (1012 / 1000 * sma).
Proof.
  intros Hel Hx Hfuel Hmu e sma.
  destruct (eccentricity_tight t body a el Hel) as [H2 H3].
  pose proof (elements_bounded t body a el 4 Hel ltac:(lia)) as H4.
  pose proof (elements_bounded t body a el 5 Hel ltac:(lia)) as H5.
  cbv zeta in H2, H3. fold e in H2, H3, H4, H5.
  assert (HE : Rabs e.[2] + Rabs e.[3] <= 12 / 1000).
  { apply Rabs_le in H2. apply Rabs_le in H3. lra. }
  destruct (kepler_five_turns e.[0] e dt ltac:(lra)) as [F HF].
  assert (Hk : kepler fuel e.[0] e dt = Returns F)
    by (unfold kepler in *;
        exact (kepler_loop_more_fuel (DA := RealArith) 5 fuel _ _ _ _ Hfuel HF)).
  exists (rectangular (DA := RealArith) sma e.[0] e F xyz). split.
  - unfold EllipticToRectangularN, EllipticToRectangular. cbv zeta. rewrite Hk.
    cbn [mbind outcome_bind mret outcome_ret pow ddiv dmul lit RealArith].
    unlit_red. replace (1 / 1 / (3 / 1)) with (1 / 3) by lra. reflexivity.
  - assert (He : e.[2] * e.[2] + e.[3] * e.[3] <= 1).
    { assert (e.[2] * e.[2] <= 1 / 4) by nra.
      assert (e.[3] * e.[3] <= 1 / 4) by nra. lra. }
    assert (Hi : e.[4] * e.[4] + e.[5] * e.[5] <= 1).
    { assert (e.[4] * e.[4] <= 1 / 4) by nra.
      assert (e.[5] * e.[5] <= 1 / 4) by nra. lra. }
    rewrite (rectangular_radius sma e.[0] e F xyz Hx He Hi).
    pose proof (kepler_divisor_bounds e F _ HE) as HD.
    assert (Hs : 0 < sma) by apply exp_pos.
    set (D := kepler_divisor e F) in *. clearbody D.
    assert (0 <= 988 / 1000 * sma <= sma * D) by nra.
    assert (0 <= sma * D <= 1012 / 1000 * sma) by nra.
    split; apply Rmult_le_compat; lra.
Qed.

(** *** The theorems with hypotheses, on concrete inputs *)

(** A circular orbit leaves the Newton loop at its first turn. *)
Lemma circular_orbit_first_turn (n dt : R) (elem : list double) :
  elem.[2] = 0 -> elem.[3] = 0 ->
  kepler 1 n elem dt = Returns (kepler_L n elem dt).
Proof.
  intros Hh Hk.
  pose proof Hh as Hh'. pose proof Hk as Hk'.
  change (@lookup_total nat R) with (@lookup_total nat (@double RealArith)) in Hh', Hk'.
  unfold kepler. set (L := kepler_L (DA := RealArith) n elem dt).
  assert (Hseed : kepler_seed L elem = L)
    by (unfold kepler_seed; rewrite Hh', Hk';
        change (L - 0 * Rtrigo_def.sin L + 0 * Rtrigo_def.cos L = L); ring).
  assert (Hd : @eq R (kepler_dLe L elem L) 0).
  { rewrite kepler_dLe_quotient. unfold kepler_residual, kepler_divisor.
    rewrite Hh, Hk. field. }
  rewrite Hseed, kepler_loop_first_turn; rewrite Hd.
  - f_equal. ring.
  - rewrite Rabs_R0. lra.
Qed.

Lemma circular_returns (xyz : list double) :
  EllipticToRectangularN 1 1 circular_elements 0 xyz = Returns (circular_state xyz).
Proof.
  unfold EllipticToRectangularN, EllipticToRectangular. cbv zeta.
  change (circular_elements.[0]) with 1.
  rewrite (circular_orbit_first_turn 1 0 circular_elements eq_refl eq_refl).
  cbn [mbind outcome_bind mret outcome_ret pow ddiv dmul lit RealArith].
  unlit_red. replace (1 / 1 / (3 / 1)) with (1 / 3) by lra. reflexivity.
Qed.

Lemma CalcGust86Elem_writes_six_cells_witness :
  (6 <= length long_array)%nat /\ (6 <= length (frame_elements stale_frame))%nat /\
  CalcGust86Elem (DA := RealArith) 0 Miranda zero_angles long_array !! 7%nat
  = long_array !! 7%nat.
Proof.
  assert (H1 : (6 <= length long_array)%nat) by (cbn; lia).
  assert (H2 : (6 <= length (frame_elements stale_frame))%nat) by (cbn; lia).
  split; [exact H1|]. split; [exact H2|].
  exact (proj1 (proj2 (Frames.CalcGust86Elem_writes_six_cells (DA := RealArith)
           0 Miranda zero_angles long_array (frame_elements stale_frame) H1 H2))
           7%nat ltac:(lia)).
Defined.

Lemma EllipticToRectangularN_writes_six_cells_witness :
  (6 <= length long_array)%nat /\ (6 <= length (frame_x zero_frame))%nat /\
  EllipticToRectangularN 1 1 circular_elements 0 long_array
  = Returns (circular_state long_array) /\
  length (circular_state long_array) = length long_array.
Proof.
  assert (H1 : (6 <= length long_array)%nat) by (cbn; lia).
  assert (H2 : (6 <= length (frame_x zero_frame))%nat) by (cbn; lia).
  split; [exact H1|]. split; [exact H2|]. split; [apply circular_returns|].
  exact (proj1 (Frames.EllipticToRectangularN_writes_six_cells (DA := RealArith)
           1 1 circular_elements 0 long_array (frame_x zero_frame)
           (circular_state long_array) H1 H2 (circular_returns long_array))).
Defined.

Lemma sine_and_cosine_series_pair_witness :
  (6 <= length (frame_elements zero_frame))%nat /\
  CalcGust86Elem (DA := swap_sin_cos RealArith) 0 Umbriel
    (mkAngles (DA := swap_sin_cos RealArith)
       (an zero_angles) (ae zero_angles) (ai zero_angles))
    (frame_elements zero_frame) !! 2%nat
  = CalcGust86Elem (DA := RealArith) 0 Umbriel zero_angles
      (frame_elements zero_frame) !! 3%nat.
Proof.
  assert (H1 : (6 <= length (frame_elements zero_frame))%nat) by (cbn; lia).
  split; [exact H1|].
  exact (proj1 (Frames.sine_and_cosine_series_pair (DA := RealArith)
                  0 Umbriel zero_angles (frame_elements zero_frame) H1)).
Defined.

Lemma mean_motion_near_table_frequency_witness :
  length (frame_elements zero_frame) = 6%nat /\
  46 / 100 < (CalcGust86Elem (DA := RealArith) 0 Oberon zero_angles
                (frame_elements zero_frame)).[0].
Proof.
  assert (H1 : length (frame_elements zero_frame) = 6%nat) by reflexivity.
  split; [exact H1|].
  exact (proj2 (mean_motion_near_table_frequency 0 Oberon zero_angles
                  (frame_elements zero_frame) H1)).
Defined.

Lemma mean_longitude_tracks_phase_witness :
  length (frame_elements zero_frame) = 6%nat /\
  Rabs ((CalcGust86Elem (DA := RealArith) 1000 Ariel zero_angles
           (frame_elements zero_frame)).[1]
        - (fqn.[satIndex Ariel] * 1000 + phn.[satIndex Ariel]))
  <= 3 / 100 + 1e-9 * Rabs 1000.
Proof.
  assert (H1 : length (frame_elements zero_frame) = 6%nat) by reflexivity.
  split; [exact H1|].
  exact (mean_longitude_tracks_phase 1000 Ariel zero_angles
           (frame_elements zero_frame) H1).
Defined.

Lemma kepler_solution_residual_witness :
  Rabs tenth_eccentric.[2] + Rabs tenth_eccentric.[3] < 1 /\
  exists F,
    kepler 5 1 tenth_eccentric 0 = Returns F /\
    Rabs (kepler_L (DA := RealArith) 1 tenth_eccentric 0 - F
          + tenth_eccentric.[2] * Rtrigo_def.sin F
          - tenth_eccentric.[3] * Rtrigo_def.cos F) <= 1e-14.
Proof.
  assert (H0 : Rabs tenth_eccentric.[2] + Rabs tenth_eccentric.[3] <= 1 / 8).
  { cbn. rewrite Rabs_R0, Rabs_right by lra. lra. }
  assert (H1 : Rabs tenth_eccentric.[2] + Rabs tenth_eccentric.[3] < 1) by lra.
  split; [exact H1|].
  destruct (kepler_five_turns 1 tenth_eccentric 0 H0) as [F HF].
  exists F. split; [exact HF|].
  exact (kepler_solution_residual 5 1 tenth_eccentric 0 F H1 HF).
Defined.

Lemma kepler_returns_within_five_turns_witness :
  Rabs tenth_eccentric.[2] + Rabs tenth_eccentric.[3] <= 1 / 8 /\ (5 <= 5)%nat /\
  exists F, kepler 5 1 tenth_eccentric 0 = Returns F.
Proof.
  assert (H1 : Rabs tenth_eccentric.[2] + Rabs tenth_eccentric.[3] <= 1 / 8).
  { cbn. rewrite Rabs_R0, Rabs_right by lra. lra. }
  assert (H2 : (5 <= 5)%nat) by lia.
  split; [exact H1|]. split; [exact H2|].
  destruct (kepler_returns_within_five_turns 5 1 tenth_eccentric 0 H1 H2)
    as (F & HF & _).
  exists F. exact HF.
Defined.

Lemma state_returns_witness :
  frame_sized zero_frame /\ (5 <= 5)%nat /\
  exists sv, state 5 (Gust86Orbit_ctor Oberon) 0 zero_frame = Returns sv.
Proof.
  assert (H1 : frame_sized zero_frame) by (repeat split).
  assert (H2 : (5 <= 5)%nat) by lia.
  split; [exact H1|]. split; [exact H2|].
  exact (state_returns 5 (Gust86Orbit_ctor Oberon) 0 zero_frame H1 H2).
Defined.

Lemma vis_viva_witness :
  length (frame_x zero_frame) = 6%nat /\ 0 < 1 /\ circular_elements.[0] <> 0 /\
  circular_elements.[2] * circular_elements.[2]
  + circular_elements.[3] * circular_elements.[3] < 1 /\
  circular_elements.[4] * circular_elements.[4]
  + circular_elements.[5] * circular_elements.[5] <= 1 /\
  EllipticToRectangularN 1 1 circular_elements 0 (frame_x zero_frame)
  = Returns (circular_state (frame_x zero_frame)) /\
  exists a F,
    0 < a /\ a * a * a * (circular_elements.[0] * circular_elements.[0]) = 1 /\
    (circular_state (frame_x zero_frame)).[3] * (circular_state (frame_x zero_frame)).[3]
    + (circular_state (frame_x zero_frame)).[4] * (circular_state (frame_x zero_frame)).[4]
    + (circular_state (frame_x zero_frame)).[5] * (circular_state (frame_x zero_frame)).[5]
    = 1 * (2 / (a * kepler_divisor circular_elements F) - 1 / a).
Proof.
  assert (H1 : length (frame_x zero_frame) = 6%nat) by reflexivity.
  assert (H2 : 0 < 1) by lra.
  assert (H3 : circular_elements.[0] <> 0) by (cbn; lra).
  assert (H4 : circular_elements.[2] * circular_elements.[2]
               + circular_elements.[3] * circular_elements.[3] < 1) by (cbn; lra).
  assert (H5 : circular_elements.[4] * circular_elements.[4]
               + circular_elements.[5] * circular_elements.[5] <= 1) by (cbn; lra).
  pose proof (circular_returns (frame_x zero_frame)) as H6.
  repeat (split; [assumption|]).
  destruct (vis_viva 1 1 circular_elements 0 (frame_x zero_frame) _ H1 H2 H3 H4 H5 H6)
    as (a & F & _ & Ha & Hlaw & _ & _ & Hv).
  exists a, F. repeat split; assumption.
Defined.

Lemma angular_momentum_witness :
  length (frame_x zero_frame) = 6%nat /\
  half_eccentric.[2] * half_eccentric.[2]
  + half_eccentric.[3] * half_eccentric.[3] < 1 /\
  (rectangular (DA := RealArith) 1 1 half_eccentric 0 (frame_x zero_frame)).[0]
  * (rectangular (DA := RealArith) 1 1 half_eccentric 0 (frame_x zero_frame)).[4]
  - (rectangular (DA := RealArith) 1 1 half_eccentric 0 (frame_x zero_frame)).[1]
    * (rectangular (DA := RealArith) 1 1 half_eccentric 0 (frame_x zero_frame)).[3]
  = 1 * (1 * 1)
    * R_sqrt.sqrt (1 - half_eccentric.[2] * half_eccentric.[2]
                   - half_eccentric.[3] * half_eccentric.[3])
    * (1 - 2 * (half_eccentric.[4] * half_eccentric.[4])
       - 2 * (half_eccentric.[5] * half_eccentric.[5])).
Proof.
  assert (H1 : length (frame_x zero_frame) = 6%nat) by reflexivity.
  assert (H2 : half_eccentric.[2] * half_eccentric.[2]
               + half_eccentric.[3] * half_eccentric.[3] < 1) by (cbn; lra).
  split; [exact H1|]. split; [exact H2|].
  exact (proj2 (proj2 (angular_momentum 1 1 half_eccentric 0 (frame_x zero_frame)
                         H1 H2))).
Defined.

Lemma distance_within_bounds_witness :
  length (frame_elements zero_frame) = 6%nat /\
  length (frame_x zero_frame) = 6%nat /\ (5 <= 5)%nat /\ 0 < 1 /\
  exists out,
    EllipticToRectangularN 5 1
      (CalcGust86Elem (DA := RealArith) 0 Miranda zero_angles
         (frame_elements zero_frame)) 0 (frame_x zero_frame) = Returns out.
Proof.
  assert (H1 : length (frame_elements zero_frame) = 6%nat) by reflexivity.
  assert (H2 : length (frame_x zero_frame) = 6%nat) by reflexivity.
  assert (H3 : (5 <= 5)%nat) by lia.
  assert (H4 : 0 < 1) by lra.
  split; [exact H1|]. split; [exact H2|]. split; [exact H3|].
  split; [exact H4|].
  destruct (distance_within_bounds 5 1 0 0 Miranda zero_angles
              (frame_elements zero_frame) (frame_x zero_frame) H1 H2 H3 H4)
    as (out & Hout & _).
  exists out. exact Hout.
Defined.

End Facade.

(** ** The bounding sphere of an orbit *)

Module Bounding.
Import Reals Lra Qreals Dbl Gust86 Ideal Structural Analytic Orbital Loop Convergence Conic Facade.
Local Open Scope double_scope.
Local Open Scope R_scope.

Lemma elements_per_satellite (t : double) (body : Satellite) (a : Angles)
    (el : list double) :
  length el = 6%nat ->
  let e := CalcGust86Elem t body a el in
  least_mean_motion body <= e.[0] /\
  Rabs e.[2] <= greatest_eccentricity body /\
  Rabs e.[3] <= greatest_eccentricity body.
Proof.
  intros Hl e. subst e. unfold CalcGust86Elem.
  set (A := angle_loop t a). clearbody A.
  apply length_6_inv in Hl as (? & ? & ? & ? & ? & ? & ->).
  destruct body; (split; [|split; apply Rabs_le]);
    cbn; bound_trig; unlit; lra.
Qed.

(** An upper bound of the cube root [(mu / n^2)^(1/3)] from a lower bound of
    [n]. *)
Lemma cube_root_le (mu n nmin amax : R) :
  0 < mu -> 0 < nmin -> nmin <= n -> 0 < amax ->
  mu <= amax * amax * amax * (nmin * nmin) ->
  Rpower (mu / (n * n)) (1 / 3) <= amax.
Proof.
  intros Hmu Hnmin Hn Hamax Hle.
  destruct (cube_root_third_law mu n Hmu ltac:(lra)) as [Ha Hlaw].
  cbv zeta in Ha, Hlaw.
  set (s := Rpower (mu / (n * n)) (1 / 3)) in *. clearbody s.
  destruct (Rle_lt_dec s amax) as [H | H]; [exact H|exfalso].
  assert (H2 : amax * amax < s * s) by (apply Rmult_le_0_lt_compat; lra).
  assert (H3 : amax * amax * amax < s * s * s).
  { apply Rmult_le_0_lt_compat; [|lra|exact H2|exact H].
    apply Rmult_le_pos; lra. }
  assert (Hn2 : nmin * nmin <= n * n) by (apply Rmult_le_compat; lra).
  assert (Hn0 : 0 < n * n) by (apply Rmult_lt_0_compat; lra).
  assert (H0 : 0 <= amax * amax * amax)
    by (apply Rmult_le_pos; [apply Rmult_le_pos|]; lra).
  assert (H4 : amax * amax * amax * (nmin * nmin) <= amax * amax * amax * (n * n))
    by (apply Rmult_le_compat_l; assumption).
  assert (H5 : amax * amax * amax * (n * n) < s * s * s * (n * n))
    by (apply Rmult_lt_compat_r; assumption).
  lra.
Qed.

(** The rotation of [state] lengthens no vector by more than one part in
    [1e17]. *)
Lemma rotation_norm (x y z : R) :
  norm2 (mat_vec (transpose (Matrix3d GUST86toJ2000)) (mkVector3d x y z))
  <= (1 + 1e-17) * (x * x + y * y + z * z).
Proof.
  unfold norm2. set (eps := 1e-17).
  cbn. unlit. subst eps.
  pose proof (Rle_0_sqr (x - y)) as Hxy. pose proof (Rle_0_sqr (x + y)) as Hxy'.
  pose proof (Rle_0_sqr (x - z)) as Hxz. pose proof (Rle_0_sqr (x + z)) as Hxz'.
  pose proof (Rle_0_sqr (y - z)) as Hyz. pose proof (Rle_0_sqr (y + z)) as Hyz'.
  unfold Rsqr in *.
  lra.
Qed.

Lemma norm2_scale (v : Vector3d) (c : R) :
  norm2 (vec_scale v c) = c * c * norm2 v.
Proof. unfold norm2, vec_scale. cbn. ring. Qed.

Lemma axis_per_satellite (body : Satellite) (n : R) :
  least_mean_motion body <= n ->
  0 < Rpower (gust86_rmu.[satIndex body] / (n * n)) (1 / 3) <= greatest_axis body.
Proof.
  intros Hn. split; [apply exp_pos|].
  apply (cube_root_le _ n (least_mean_motion body)); try exact Hn;
    destruct body; cbn; unlit; lra.
Qed.

Lemma radius_per_satellite (body : Satellite) :
  0 < greatest_axis body /\
  0 <= greatest_eccentricity body <= 1 / 16 /\
  (1 + 1e-17)
  * ((149597871 * (greatest_axis body * (1 + 2 * greatest_eccentricity body)))
     * (149597871 * (greatest_axis body * (1 + 2 * greatest_eccentricity body))))
  <= boundingRadius_of body * boundingRadius_of body.
Proof.
  set (eps := 1e-17).
  destruct body; cbn; unlit; subst eps; lra.
Qed.

Lemma Create_returns {HD : Headers} (body : Satellite) :
  exists orbit, Create body = Returns orbit /\ m_satellite orbit = body /\
                m_boundingRadius orbit = boundingRadius_of body.
Proof.
  unfold Create. rewrite index_fqn. destruct body; eexists; repeat split.
Qed.

Section WithHeaders.
Context {HD : Headers}.

(** X12.  The bounding sphere contains the orbit.  For every satellite and
    every time, [Create] returns an orbit and [state] returns for it (five
    turns of the Newton loop suffice) a position whose distance from the
    planet is at most the bounding radius that [Create] stored, whenever the
    header constant [AU] is at most [149597871] (kilometres) in absolute
    value; the other header constants and functions are arbitrary. *)
Theorem orbit_within_bounding_radius (fuel : nat) (body : Satellite) (tdbSec : R)
    (fr : Frame) :
  frame_sized fr -> (5 <= fuel)%nat -> Rabs AU <= 149597871 ->
  exists orbit sv,
    Create body = Returns orbit /\
    state fuel orbit tdbSec fr = Returns sv /\
    norm2 (position sv) <= m_boundingRadius orbit * m_boundingRadius orbit.
Proof.
  intros (Hel & Hx & Ha) Hfuel HAU.
  destruct (Create_returns body) as (orbit & HC & Hsat & Hrad).
  exists orbit. unfold state. rewrite Hsat, Hrad, index_gust86_rmu.
  cbn [mbind outcome_bind mret outcome_ret]. cbv zeta.
  set (e := CalcGust86Elem _ _ _ _).
  match goal with
  | e := CalcGust86Elem ?t ?b ?a ?el |- _ =>
      destruct (elements_per_satellite t b a el Hel) as (Hn & H2 & H3);
      pose proof (elements_bounded t b a el 4 Hel ltac:(lia)) as H4;
      pose proof (elements_bounded t b a el 5 Hel ltac:(lia)) as H5
  end.
  cbv zeta in Hn, H2, H3. fold e in Hn, H2, H3, H4, H5.
  destruct (radius_per_satellite body) as (Hax & Hecc & Hnum).
  destruct (axis_per_satellite body e.[0] Hn) as [Hs0 Hs].
  assert (HE : Rabs e.[2] + Rabs e.[3] <= 2 * greatest_eccentricity body) by lra.
  destruct (kepler_five_turns e.[0] e (@lit RealArith 0.0%Q) ltac:(lra)) as [F HF].
  assert (Hk : kepler fuel e.[0] e (@lit RealArith 0.0%Q) = Returns F)
    by (unfold kepler in *;
        exact (kepler_loop_more_fuel (DA := RealArith) 5 fuel _ _ _ _ Hfuel HF)).
  unfold EllipticToRectangularN, EllipticToRectangular. cbv zeta.
  rewrite Hk.
  cbn [mbind outcome_bind mret outcome_ret pow ddiv dmul lit RealArith].
  unlit_red. replace (1 / 1 / (3 / 1)) with (1 / 3) by lra.
  eexists. split; [exact HC|]. split; [reflexivity|].
  cbn [position]. rewrite norm2_scale.
  set (sma := Rpower (gust86_rmu.[satIndex body] / (e.[0] * e.[0])) (1 / 3)) in *.
  assert (He : e.[2] * e.[2] + e.[3] * e.[3] <= 1).
  { apply Rabs_le_between in H2. apply Rabs_le_between in H3.
    assert (e.[2] * e.[2] <= 1 / 4) by nra.
    assert (e.[3] * e.[3] <= 1 / 4) by nra. lra. }
  assert (Hi : e.[4] * e.[4] + e.[5] * e.[5] <= 1).
  { assert (e.[4] * e.[4] <= 1 / 4) by nra.
    assert (e.[5] * e.[5] <= 1 / 4) by nra. lra. }
  match goal with
  | |- context [mkVector3d ?a ?b ?c] =>
      pose proof (rotation_norm a b c) as Hrot;
      assert (Hr : a * a + b * b + c * c
                   = sma * kepler_divisor e F * (sma * kepler_divisor e F))
        by exact (rectangular_radius sma e.[0] e F (frame_x fr) Hx He Hi)
  end.
  rewrite Hr in Hrot.
  pose proof (kepler_divisor_bounds e F _ HE) as HD'.
  set (D := kepler_divisor e F) in *. clearbody D.
  set (G := greatest_axis body) in *. set (E := greatest_eccentricity body) in *.
  assert (Hd : 0 <= sma * D <= G * (1 + 2 * E)).
  { split; [apply Rmult_le_pos; lra|]. apply Rmult_le_compat; lra. }
  assert (Hd2 : sma * D * (sma * D) <= G * (1 + 2 * E) * (G * (1 + 2 * E)))
    by (apply Rmult_le_compat; lra).
  pose proof (square_le_of_abs _ _ HAU) as HA2.
  set (N := norm2 _) in *.
  assert (HN0 : 0 <= N) by (unfold N, norm2; nra).
  clearbody N.
  set (eps := 1e-17) in *.
  assert (Heps : 0 <= eps) by (unfold eps; lra).
  set (Q := G * (1 + 2 * E) * (G * (1 + 2 * E))) in *.
  assert (HNQ : N <= (1 + eps) * Q).
  { eapply Rle_trans; [exact Hrot|]. apply Rmult_le_compat_l; lra. }
  eapply Rle_trans; [|exact Hnum].
  replace ((1 + eps)
           * (149597871 * (G * (1 + 2 * E)) * (149597871 * (G * (1 + 2 * E)))))
    with (149597871 * 149597871 * ((1 + eps) * Q)) by (unfold Q; ring).
  apply Rmult_le_compat; [nra | exact HN0 | exact HA2 | exact HNQ].
Qed.

End WithHeaders.

(** *** The theorem on a concrete input *)

Lemma orbit_within_bounding_radius_witness :
  frame_sized zero_frame /\ (5 <= 5)%nat /\ Rabs AU <= 149597871 /\
  exists orbit sv,
    Create Titania = Returns orbit /\
    state 5 orbit 0 zero_frame = Returns sv /\
    norm2 (position sv) <= m_boundingRadius orbit * m_boundingRadius orbit.
Proof.
  assert (H1 : frame_sized zero_frame) by (repeat split).
  assert (H2 : (5 <= 5)%nat) by lia.
  assert (H3 : Rabs AU <= 149597871) by (apply Rabs_le; cbn; lra).
  split; [exact H1|]. split; [exact H2|]. split; [exact H3|].
  exact (orbit_within_bounding_radius 5 Titania 0 zero_frame H1 H2 H3).
Defined.

End Bounding.

(** ** The Newton division in binary64 *)

Module Rounding.
Import Dbl Gust86 Structural Binary64 Newton.
Local Open Scope double_scope.

Lemma kepler_dLe_is_a_quotient {DA : DoubleArith} (L : double)
    (elem : list double) (Le : double) :
  kepler_dLe L elem Le = newton_numerator L elem Le / newton_divisor elem Le.
Proof. reflexivity. Qed.

(** A turn whose correction fails the test hands the corrected iterate to
    the next turn. *)
Lemma kepler_loop_goes_on {DA : DoubleArith} (fuel : nat) (L : double)
    (elem : list double) (Le : double) :
  (fabs (kepler_dLe L elem Le) <=? #1e-14) = false ->
  kepler_loop (S fuel) L elem Le
  = kepler_loop fuel L elem (Le + kepler_dLe L elem Le).
Proof. intros H. cbn [kepler_loop]. cbv zeta. rewrite H. reflexivity. Qed.

Section Run.

(** What the run needs of the library: the sine and cosine at the two
    arguments it reaches (the correctly rounded values), and NaN for the
    sine and cosine of an infinity or a NaN, as C specifies. *)
Variable libm : Libm.
Hypothesis sin_L : m_sin libm near_parabolic_L = of_Q 0.7999965659210343.
Hypothesis cos_L : m_cos libm near_parabolic_L = of_Q 0.6000045787446562.
Hypothesis sin_seed :
  m_sin libm near_parabolic_seed = of_Q 0.7999999999999999.
Hypothesis cos_seed :
  m_cos libm near_parabolic_seed = of_Q 0.6000000000000001.
Hypothesis sin_inf : m_sin libm PrimFloat.neg_infinity = PrimFloat.nan.
Hypothesis cos_inf : m_cos libm PrimFloat.neg_infinity = PrimFloat.nan.
Hypothesis sin_nan : m_sin libm PrimFloat.nan = PrimFloat.nan.
Hypothesis cos_nan : m_cos libm PrimFloat.nan = PrimFloat.nan.

Lemma near_parabolic_kepler_L :
  kepler_L (DA := arith libm) (of_Q 1) near_parabolic_elements (of_Q 0)
  = near_parabolic_L.
Proof. vm_compute. reflexivity. Qed.

Lemma near_parabolic_kepler_seed :
  kepler_seed (DA := arith libm) near_parabolic_L near_parabolic_elements
  = near_parabolic_seed.
Proof.
  unfold kepler_seed. cbn [sin cos arith]. rewrite sin_L, cos_L.
  vm_compute. reflexivity.
Qed.

Lemma near_parabolic_divisor :
  newton_divisor (DA := arith libm) near_parabolic_elements near_parabolic_seed
  = PrimFloat.zero.
Proof.
  unfold newton_divisor. cbn [sin cos arith]. rewrite sin_seed, cos_seed.
  vm_compute. reflexivity.
Qed.

Lemma near_parabolic_dLe :
  kepler_dLe (DA := arith libm) near_parabolic_L near_parabolic_elements
    near_parabolic_seed = PrimFloat.neg_infinity.
Proof.
  unfold kepler_dLe. cbv zeta. cbn [sin cos arith]. rewrite sin_seed, cos_seed.
  vm_compute. reflexivity.
Qed.

Lemma dLe_at_neg_infinity :
  kepler_dLe (DA := arith libm) near_parabolic_L near_parabolic_elements
    PrimFloat.neg_infinity = PrimFloat.nan.
Proof.
  unfold kepler_dLe. cbv zeta. cbn [sin cos arith]. rewrite sin_inf, cos_inf.
  vm_compute. reflexivity.
Qed.

Lemma dLe_at_nan :
  kepler_dLe (DA := arith libm) near_parabolic_L near_parabolic_elements
    PrimFloat.nan = PrimFloat.nan.
Proof.
  unfold kepler_dLe. cbv zeta. cbn [sin cos arith]. rewrite sin_nan, cos_nan.
  vm_compute. reflexivity.
Qed.

Lemma loop_from_nan (fuel : nat) :
  kepler_loop (DA := arith libm) fuel near_parabolic_L near_parabolic_elements
    PrimFloat.nan = Spinning.
Proof.
  induction fuel as [|fuel IH]; [reflexivity|].
  rewrite kepler_loop_goes_on; rewrite dLe_at_nan; [|vm_compute; reflexivity].
  exact IH.
Qed.

Lemma loop_from_neg_infinity (fuel : nat) :
  kepler_loop (DA := arith libm) fuel near_parabolic_L near_parabolic_elements
    PrimFloat.neg_infinity = Spinning.
Proof.
  destruct fuel as [|fuel]; [reflexivity|].
  rewrite kepler_loop_goes_on; rewrite dLe_at_neg_infinity;
    [|vm_compute; reflexivity].
  exact (loop_from_nan fuel).
Qed.

Lemma loop_from_seed (fuel : nat) :
  kepler_loop (DA := arith libm) fuel near_parabolic_L near_parabolic_elements
    near_parabolic_seed = Spinning.
Proof.
  destruct fuel as [|fuel]; [reflexivity|].
  rewrite kepler_loop_goes_on; rewrite near_parabolic_dLe;
    [|vm_compute; reflexivity].
  exact (loop_from_neg_infinity fuel).
Qed.


End Run.

(** *** The theorem on a concrete library *)


End Rounding.

(** ** Construction from a value outside the enumeration *)

Module Construction.
Import Dbl Gust86 Ideal.

(** C2, counterexample.  The value 5 is not one of the five identities, and
    [Create] does not reject it: it reads [fqn[5]], outside the table
    (undefined behaviour), and its switch would leave the orbit as the
    constructor made it; the outcome is not the error
    [InvalidSatelliteIdentity] that the specification wants there. *)
Lemma Create_rejects_no_identity :
  Identity.Create_value (DA := RealArith) (HD := RealHeaders) 5 = OutOfBounds /\
  (forall orbit,
     Identity.Create_switch (DA := RealArith) 5 orbit = orbit) /\
  ~ Identity.construction_meets_spec 5
      (Identity.constructed
         (Identity.Create_value (DA := RealArith) (HD := RealHeaders) 5)).
Proof.
  split; [reflexivity|]. split; [intros orbit; reflexivity|].
  unfold Identity.construction_meets_spec. rewrite decide_False by lia.
  discriminate.
Qed.

End Construction.
